(** * geohazards-agent: the report aggregation and the upstream queries

    A shallow embedding of [src/index.ts].  JavaScript numbers are IEEE-754
    binary64 values, modelled by Rocq's primitive [float]; the arithmetic
    operators [+ - * /], [Math.sqrt] and the comparisons are the primitive,
    correctly rounded operations.  [Math.sin], [Math.cos], [Math.atan2] and
    [Math.round] belong to the host's math library and are taken through the
    interface [JSMath].  Upstream JSON is untyped in the source ([any]); the
    fields the handlers inspect dynamically are kept as [jsval]. *)

From Stdlib Require Import QArith Qreals Reals Lra.
From Stdlib Require Import ZArith Lia List Bool String Ascii Sorted Permutation Floats.
Import ListNotations.

Close Scope R_scope.
Close Scope Q_scope.
Local Open Scope list_scope.

(** ** JavaScript values *)

Inductive jsval :=
| JUndefined
| JNull
| JBool (b : bool)
| JNumber (x : float)
| JString (s : string).

(** [new Date(ms)]; [getTime] is the time value in milliseconds. *)
Record Date := new_Date { getTime : float }.

(** A template literal (or a [+] concatenation) is a sequence of literal chunks
    and interpolated values.  [Iso d] stands for [d.toISOString()]; the
    formatting of numbers and instants is not modelled. *)
Inductive piece :=
| Lit (s : string)
| Sub (v : jsval)
| Iso (d : Date).

Definition template := list piece.

Definition Num (x : float) : piece := Sub (JNumber x).
Definition Str (s : string) : piece := Sub (JString s).

Inductive error :=
| ApiError (status : Z)      (* new Error(`API error: ${response.status}`) *)
| TypeError.                 (* a method call on a value that lacks it *)

Inductive outcome (A : Type) :=
| Ok (a : A)
| Throw (e : error).

Arguments Ok {A} a.
Arguments Throw {A} e.

Definition bind {A B} (m : outcome A) (k : A -> outcome B) : outcome B :=
  match m with
  | Ok a => k a
  | Throw e => Throw e
  end.

Notation "x <- m ;; k" := (bind m (fun x => k))
  (at level 61, m at next level, right associativity).

(** ** String and array built-ins *)

(** [s.includes(sub)] *)
Fixpoint includes (s sub : string) : bool :=
  if String.prefix sub s then true
  else match s with
       | EmptyString => false
       | String _ s' => includes s' sub
       end.

(** [s.endsWith(suffix)] *)
Definition endsWith (s suffix : string) : bool :=
  let n := String.length s in
  let k := String.length suffix in
  (k <=? n)%nat && String.eqb (String.substring (n - k) k s) suffix.

(** ASCII case folding: [toLowerCase] on strings of ASCII code units. *)
Definition lower_ascii (c : ascii) : ascii :=
  let n := nat_of_ascii c in
  if ((65 <=? n) && (n <=? 90))%nat then ascii_of_nat (n + 32) else c.

Fixpoint ascii_toLowerCase (s : string) : string :=
  match s with
  | EmptyString => EmptyString
  | String c s' => String (lower_ascii c) (ascii_toLowerCase s')
  end.

(** [a.slice(start, end)] for non-negative integer bounds. *)
Definition slice {A} (start end_ : nat) (a : list A) : list A :=
  firstn (end_ - start) (skipn start a).

(** [a.filter(f)] when the callback may throw. *)
Fixpoint filterM {A} (f : A -> outcome bool) (a : list A) : outcome (list A) :=
  match a with
  | [] => Ok []
  | x :: rest =>
      keep <- f x ;;
      rest' <- filterM f rest ;;
      Ok (if keep then x :: rest' else rest')
  end.

(** [a.sort(comparefn)].  ECMAScript requires the sort to be stable and reads a
    comparator result [v] by its sign, a NaN counting as [+0].  [x] is moved
    behind [y] exactly when [comparefn(x, y) > 0]; for a consistent comparator
    every conforming engine returns the list computed here. *)
Fixpoint sort_insert {A} (comparefn : A -> A -> float) (x : A) (a : list A) : list A :=
  match a with
  | [] => [x]
  | y :: rest =>
      if (0 <? comparefn x y)%float then y :: sort_insert comparefn x rest
      else x :: y :: rest
  end.

Definition sort {A} (comparefn : A -> A -> float) (a : list A) : list A :=
  fold_right (sort_insert comparefn) [] a.

(** ** The host math library *)

Class JSMath := {
  Math_sin : float -> float;
  Math_cos : float -> float;
  Math_atan2 : float -> float -> float;
  Math_round : float -> float
}.

(** [Math.PI] = 3.141592653589793 *)
Definition Math_PI : float := 0x1.921fb54442d18p+1%float.

Definition Math_sqrt : float -> float := PrimFloat.sqrt.

(** ** Upstream records *)

(** One record of the volcano list ([volcanoesGVP]). *)
Record volcano := {
  vnum : jsval;
  vName : jsval;
  country : jsval;
  subregion : jsval;
  latitude : float;
  longitude : float;
  elevation_m : jsval;
  obsAbbr : jsval;
  webpage : jsval
}.

(** One GeoJSON feature of the seismic source: [id], [properties.mag],
    [properties.place], [properties.time], [geometry.coordinates[2]].  The
    record stands for a feature whose [properties] and [geometry.coordinates]
    are present. *)
Record feature := {
  id : jsval;
  mag : float;
  place : jsval;
  time : float;
  depth : jsval
}.

Record FeatureCollection := {
  metadata_count : jsval;
  features : list feature
}.

Record Response (A : Type) := {
  ok : bool;
  status : Z;
  json : A
}.

Arguments ok {A} r.
Arguments status {A} r.
Arguments json {A} r.

(** [fetchJSON], applied to the response the fetch resolved with. *)
Definition fetchJSON {A} (response : Response A) : outcome A :=
  if negb (ok response) then Throw (ApiError (status response))
  else Ok (json response).

(** [Promise.all([p, q])] of two settled promises: the pair when both fulfil,
    otherwise the rejection that arrived first ([left_first] tells which when
    both reject). *)
Definition Promise_all {A B} (left_first : bool) (p : outcome A) (q : outcome B)
  : outcome (A * B) :=
  match p, q with
  | Ok a, Ok b => Ok (a, b)
  | Throw e, Ok _ => Throw e
  | Ok _, Throw e => Throw e
  | Throw e1, Throw e2 => Throw (if left_first then e1 else e2)
  end.

(** ** Seismic queries *)

Definition query_base : string :=
  "https://earthquake.usgs.gov/fdsnws/event/1/query?".

Section Queries.
Local Open Scope float_scope.
Local Open Scope string_scope.

Variable now : Date.

(** [overview] *)
Definition overview_url : template :=
  let yesterday := new_Date (getTime now - 24 * 60 * 60 * 1000) in
  [Lit (query_base ++ "format=geojson&starttime="); Iso yesterday;
   Lit "&minmagnitude=4&limit=5&orderby=magnitude"].

(** [lookup] *)
Definition lookup_url (eventId : string) : template :=
  [Lit (query_base ++ "eventid="); Str eventId; Lit "&format=geojson"].

(** [search]: [ctx.input] after the schema filled the defaults in. *)
Record search_input := {
  search_latitude : option float;
  search_longitude : option float;
  search_radiusKm : float;
  search_minMagnitude : float;
  search_maxMagnitude : option float;
  search_days : float;
  search_limit : float
}.

Definition search_url (i : search_input) : template :=
  let startTime := new_Date (getTime now - search_days i * 24 * 60 * 60 * 1000) in
  let url :=
    [Lit (query_base ++ "format=geojson&starttime="); Iso startTime;
     Lit "&minmagnitude="; Num (search_minMagnitude i);
     Lit "&limit="; Num (search_limit i); Lit "&orderby=time"]%list in
  let url :=
    match search_latitude i, search_longitude i with
    | Some latitude, Some longitude =>
        (url ++ [Lit "&latitude="; Num latitude; Lit "&longitude="; Num longitude;
                 Lit "&maxradiuskm="; Num (search_radiusKm i)])%list
    | _, _ => url
    end in
  match search_maxMagnitude i with
  | Some maxMagnitude => (url ++ [Lit "&maxmagnitude="; Num maxMagnitude])%list
  | None => url
  end.

(** [top] *)
Inductive period := day | week | month.

Record top_input := {
  top_period : period;
  top_minMagnitude : float;
  top_limit : float
}.

Definition daysBack (p : period) : float :=
  match p with day => 1 | week => 7 | month => 30 end.

Definition top_url (i : top_input) : template :=
  let startTime :=
    new_Date (getTime now - daysBack (top_period i) * 24 * 60 * 60 * 1000) in
  [Lit (query_base ++ "format=geojson&starttime="); Iso startTime;
   Lit "&minmagnitude="; Num (top_minMagnitude i);
   Lit "&limit="; Num (top_limit i); Lit "&orderby=magnitude"]%list.

(** [report] *)
Record report_input := {
  report_latitude : float;
  report_longitude : float;
  report_radiusKm : float
}.

Definition earthquakeUrl (i : report_input) : template :=
  let thirtyDaysAgo := new_Date (getTime now - 30 * 24 * 60 * 60 * 1000) in
  [Lit (query_base ++ "format=geojson&starttime="); Iso thirtyDaysAgo;
   Lit "&latitude="; Num (report_latitude i);
   Lit "&longitude="; Num (report_longitude i);
   Lit "&maxradiuskm="; Num (report_radiusKm i);
   Lit "&minmagnitude=2&limit=50&orderby=magnitude"]%list.
End Queries.

Definition volcanoUrl : template :=
  [Lit "https://volcanoes.usgs.gov/vsc/api/volcanoApi/volcanoesGVP"].

(** The operations that query the seismic source, with their inputs. *)
Inductive seismic_operation :=
| OpOverview
| OpLookup (eventId : string)
| OpSearch (i : search_input)
| OpTop (i : top_input)
| OpReport (i : report_input).

Definition seismic_query (now : Date) (op : seismic_operation) : template :=
  match op with
  | OpOverview => overview_url now
  | OpLookup eventId => lookup_url eventId
  | OpSearch i => search_url now i
  | OpTop i => top_url now i
  | OpReport i => earthquakeUrl now i
  end.

(** Reading a query back.  [mentions key u]: [key] occurs in the text the
    template spells out (its literal chunks and interpolated strings; a
    rendered number or instant contains no [=]). *)
Definition mentions (key : string) (u : template) : bool :=
  existsb (fun p => match p with
                    | Lit s | Sub (JString s) => includes s key
                    | _ => false
                    end) u.

(** [value_after key u]: the value interpolated right after the first literal
    chunk that ends with [key]. *)
Fixpoint value_after (key : string) (u : template) : option piece :=
  match u with
  | [] => None
  | p :: rest =>
      match p, rest with
      | Lit s, v :: _ => if endsWith s key then Some v else value_after key rest
      | _, _ => value_after key rest
      end
  end.

(** ** The report: distance, ranking, risk level *)

Section Report.
Local Open Scope float_scope.
Context {M : JSMath}.

Definition toRad (deg : float) : float := deg * Math_PI / 180.

(** The local [a] of [haversine]. *)
Definition haversine_a (lat1 lon1 lat2 lon2 : float) : float :=
  let dLat := toRad (lat2 - lat1) in
  let dLon := toRad (lon2 - lon1) in
  Math_sin (dLat / 2) * Math_sin (dLat / 2) +
  Math_cos (toRad lat1) * Math_cos (toRad lat2) *
  Math_sin (dLon / 2) * Math_sin (dLon / 2).

Definition haversine (lat1 lon1 lat2 lon2 : float) : float :=
  let R := 6371 in
  let a := haversine_a lat1 lon1 lat2 lon2 in
  R * 2 * Math_atan2 (Math_sqrt a) (Math_sqrt (1 - a)).

(** [{ ...v, distanceKm }] *)
Record ranked := {
  record : volcano;
  distanceKm : float
}.

Definition with_distance (lat lon : float) (v : volcano) : ranked :=
  {| record := v;
     distanceKm := haversine lat lon (latitude v) (longitude v) |}.

Definition within (radiusKm : float) (v : ranked) : bool :=
  distanceKm v <=? radiusKm.

Definition by_distance (a b : ranked) : float := distanceKm a - distanceKm b.

Definition nearbyVolcanoes (volcanoData : list volcano)
  (latitude longitude radiusKm : float) : list ranked :=
  slice 0 20
    (sort by_distance
       (filter (within radiusKm) (map (with_distance latitude longitude) volcanoData))).
End Report.

Inductive RiskLevel := MINIMAL | LOW | MODERATE | HIGH.

(** The [riskLevel] conditional, on [significantQuakes.length]. *)
Definition riskLevel (n : nat) : RiskLevel :=
  if (10 <? n)%nat then HIGH
  else if (3 <? n)%nat then MODERATE
  else if (0 <? n)%nat then LOW
  else MINIMAL.

Definition level_name (l : RiskLevel) : string :=
  match l with
  | MINIMAL => "MINIMAL"
  | LOW => "LOW"
  | MODERATE => "MODERATE"
  | HIGH => "HIGH"
  end.

(** The position of a level in the order MINIMAL < LOW < MODERATE < HIGH. *)
Definition level_rank (l : RiskLevel) : nat :=
  match l with
  | MINIMAL => 0
  | LOW => 1
  | MODERATE => 2
  | HIGH => 3
  end.

(** [f.properties.mag >= 4] *)
Definition significant (f : feature) : bool := (4 <=? mag f)%float.

Record Network := {
  seismic_source : template -> Response FeatureCollection;
  volcano_source : template -> Response (list volcano)
}.

Record riskAssessment := {
  ra_level : RiskLevel;
  ra_earthquakesLast30Days : jsval;
  ra_significantQuakes : nat;
  ra_nearbyVolcanoes : nat
}.

Record recentEarthquake := {
  re_id : jsval;
  re_magnitude : float;
  re_location : jsval;
  re_time : piece;
  re_depth : template
}.

Record nearbyVolcano := {
  nv_name : jsval;
  nv_country : jsval;
  nv_distanceKm : float;
  nv_elevation : template;
  nv_observatory : jsval
}.

Record report_output := {
  out_location : float * float;
  out_radiusKm : float;
  out_riskAssessment : riskAssessment;
  out_recentEarthquakes : list recentEarthquake;
  out_nearbyVolcanoes : list nearbyVolcano;
  out_dataSources : list string;
  out_fetchedAt : piece
}.

Section ReportHandler.
Context {M : JSMath}.
Local Open Scope string_scope.

(** The [report] handler.  The time of a previewed event is kept as the piece
    [Iso (new_Date t)]; where [t] is not a valid time value the handler
    throws a RangeError at this conversion.  The definition gives the
    failure of the fetches and, whenever the handler returns one, its
    output. *)
Definition report (net : Network) (left_first : bool) (now : Date) (i : report_input)
  : outcome report_output :=
  let latitude := report_latitude i in
  let longitude := report_longitude i in
  let radiusKm := report_radiusKm i in
  fetched <- Promise_all left_first
               (fetchJSON (seismic_source net (earthquakeUrl now i)))
               (fetchJSON (volcano_source net volcanoUrl)) ;;
  let '(earthquakeData, volcanoData) := fetched in
  let nearby := nearbyVolcanoes volcanoData latitude longitude radiusKm in
  let significantQuakes := filter significant (features earthquakeData) in
  Ok {| out_location := (latitude, longitude);
        out_radiusKm := radiusKm;
        out_riskAssessment :=
          {| ra_level := riskLevel (List.length significantQuakes);
             ra_earthquakesLast30Days := metadata_count earthquakeData;
             ra_significantQuakes := List.length significantQuakes;
             ra_nearbyVolcanoes := List.length nearby |};
        out_recentEarthquakes :=
          map (fun f => {| re_id := id f;
                           re_magnitude := mag f;
                           re_location := place f;
                           re_time := Iso (new_Date (time f));
                           re_depth := [Sub (depth f); Lit " km"] |})
              (slice 0 15 (features earthquakeData));
        out_nearbyVolcanoes :=
          map (fun v => {| nv_name := vName (record v);
                           nv_country := country (record v);
                           nv_distanceKm := Math_round (distanceKm v);
                           nv_elevation := [Sub (elevation_m (record v)); Lit " m"];
                           nv_observatory := obsAbbr (record v) |})
              nearby;
        out_dataSources :=
          ["USGS Earthquake Hazards Program"; "USGS Volcano Hazards Program"];
        out_fetchedAt := Iso now |}.
End ReportHandler.

(** ** Volcano search *)

Record volcanoSearch_input := {
  vs_country : option string;
  vs_name : option string;
  vs_limit : nat
}.

Record foundVolcano := {
  fv_id : jsval;
  fv_name : jsval;
  fv_country : jsval;
  fv_region : jsval;
  fv_coordinates : float * float;
  fv_elevation : template;
  fv_observatory : jsval;
  fv_infoUrl : jsval
}.

Record volcanoSearch_output := {
  vs_totalMatches : nat;
  vs_returned : nat;
  vs_searchParams : option string * option string;
  vs_volcanoes : list foundVolcano;
  vs_fetchedAt : piece
}.

(** [if (s)] on an optional string: absent and empty are both falsy. *)
Definition truthy (s : option string) : bool :=
  match s with
  | Some (String _ _) => true
  | _ => false
  end.

Section VolcanoSearch.
Local Open Scope string_scope.

(** [String.prototype.toLowerCase] *)
Variable toLowerCase : string -> string.

(** [field?.toLowerCase().includes(q.toLowerCase())], read as a condition. *)
Definition lower_includes (field : jsval) (q : string) : outcome bool :=
  match field with
  | JUndefined | JNull => Ok false
  | JString s => Ok (includes (toLowerCase s) (toLowerCase q))
  | JBool _ | JNumber _ => Throw TypeError
  end.

(** [if (q) { a = a.filter(v => v.field?.toLowerCase().includes(q.toLowerCase())) }] *)
Definition filter_by (field : volcano -> jsval) (q : option string) (a : list volcano)
  : outcome (list volcano) :=
  match q with
  | Some s => if truthy q then filterM (fun v => lower_includes (field v) s) a else Ok a
  | None => Ok a
  end.

Definition volcanoSearch (net : Network) (now : Date) (i : volcanoSearch_input)
  : outcome volcanoSearch_output :=
  data <- fetchJSON (volcano_source net volcanoUrl) ;;
  filtered <- filter_by country (vs_country i) data ;;
  filtered <- filter_by vName (vs_name i) filtered ;;
  let results := slice 0 (vs_limit i) filtered in
  Ok {| vs_totalMatches := List.length filtered;
        vs_returned := List.length results;
        vs_searchParams := (vs_country i, vs_name i);
        vs_volcanoes :=
          map (fun v => {| fv_id := vnum v;
                           fv_name := vName v;
                           fv_country := country v;
                           fv_region := subregion v;
                           fv_coordinates := (latitude v, longitude v);
                           fv_elevation := [Sub (elevation_m v); Lit " m"];
                           fv_observatory := obsAbbr v;
                           fv_infoUrl := webpage v |})
              results;
        vs_fetchedAt := Iso now |}.

(** The text predicate of the search in the specification's words: the field
    is a string that contains the filter, both folded to lower case. *)
Definition contains_ci (field : jsval) (q : string) : Prop :=
  exists s, field = JString s /\ includes (toLowerCase s) (toLowerCase q) = true.

Definition nullish (v : jsval) : Prop := v = JNull \/ v = JUndefined.

Definition string_or_nullish (v : jsval) : Prop :=
  nullish v \/ exists s, v = JString s.
End VolcanoSearch.

(** ** Reference notions used by the statements *)

(** The lookback window of each seismic operation, in milliseconds, as the
    operations are described: the last 24 hours for the overview, the
    requested number of days for the search, one day, seven days or thirty
    days for the periods of the top list, the past 30 days for the report,
    and none for the lookup by id. *)
Definition lookback_ms (op : seismic_operation) : option float :=
  match op with
  | OpOverview => Some 86400000%float
  | OpLookup _ => None
  | OpSearch i => Some (search_days i * 24 * 60 * 60 * 1000)%float
  | OpTop i =>
      Some match top_period i with
           | day => 86400000
           | week => 604800000
           | month => 2592000000
           end%float
  | OpReport _ => Some 2592000000%float
  end.

(** Number of elements that satisfy a test. *)
Fixpoint count {A} (p : A -> bool) (l : list A) : nat :=
  match l with
  | [] => 0
  | x :: rest => (if p x then 1 else 0) + count p rest
  end.

(** A point with latitude in [-90, 90] and longitude in [-180, 180]. *)
Definition valid_point (lat lon : float) : Prop :=
  ((-90 <=? lat) = true /\ (lat <=? 90) = true /\
   (-180 <=? lon) = true /\ (lon <=? 180) = true)%float.

(** A query starts at [now] minus the lookback window [w]. *)
Definition starts_at (now : Date) (w : float) (u : template) : Prop :=
  value_after "starttime=" u = Some (Iso (new_Date (getTime now - w)%float)).

Definition has_ordering_key (u : template) : Prop := mentions "&orderby=" u = true.

(** The keys of the spatial filter of a seismic query. *)
Definition spatial_keys : list string :=
  ["latitude="; "longitude="; "maxradiuskm="]%string.

(** Sorting by a numeric key: the comparator [key(a) - key(b)], the order it
    is meant to produce, and the elements whose key is not NaN. *)
Definition key_diff {A} (key : A -> float) (a b : A) : float := (key a - key b)%float.
Definition key_le {A} (key : A -> float) (a b : A) : Prop :=
  (key a <=? key b)%float = true.
Definition is_number {A} (key : A -> float) (a : A) : Prop :=
  (key a =? key a)%float = true.

(** The text test of the volcano search as a total function on fields that
    are strings or absent. *)
Definition field_test (toLowerCase : string -> string) (field : jsval) (q : string)
  : bool :=
  match field with
  | JString s => includes (toLowerCase s) (toLowerCase q)
  | _ => false
  end.

(** Two ranked records are tied at [d] when their distance equals [d]. *)
Definition tied (d : float) (v : ranked) : bool := (distanceKm v =? d)%float.

Definition closer_or_equal (a b : ranked) : Prop :=
  (distanceKm a <=? distanceKm b)%float = true.

(** Properties of the functions behind [JSMath].  ECMAScript fixes
    [Math.sin(+0)], [Math.atan2(+0, 1)] and the NaN result of [Math.atan2] on
    a NaN argument; that the sine is odd, that the cosine of a finite number
    lies in [-1, 1] and that [Math.atan2] of two non-negative numbers is a
    non-negative number hold of the real functions and of the libraries in
    use (fdlibm, glibc). *)
Section MathLaws.
Context {M : JSMath}.
Local Open Scope float_scope.

Definition sin_zero : Prop := Math_sin 0 = 0.
Definition sin_odd : Prop := forall x, Math_sin (- x) = - Math_sin x.
Definition cos_bounded : Prop :=
  forall x, is_finite x = true -> (abs (Math_cos x) <=? 1) = true.
Definition atan2_zero : Prop := Math_atan2 0 1 = 0.
Definition atan2_nan : Prop := forall y, Math_atan2 y nan = nan.
Definition atan2_nonneg : Prop :=
  forall y x, (0 <=? y) = true -> (0 <=? x) = true -> (0 <=? Math_atan2 y x) = true.
End MathLaws.

(** ** Sample math libraries

    [first_order_math] keeps the first term of each series; it satisfies the
    laws above and serves to run the definitions.

    [sampled_math] tabulates the sine and the cosine at the arguments met
    when the distance between (8, 0) and (-8, 180) is computed:
      sin(0.13962634015954636) = 0.13917310096006544,
      cos(0.13962634015954636) = 0.9902680687415704,
      sin(1.5707963267948966)  = 1,
    and at the opposite arguments.  Each entry is the double nearest to the
    value of the real function ([sampled_sin_rad8], [sampled_cos_rad8],
    [sampled_sin_half_pi] below), which is what fdlibm and glibc return.
    Elsewhere it falls back on [first_order_math]. *)

Definition first_order_math : JSMath :=
  {| Math_sin := fun x => x;
     Math_cos := fun _ => 1%float;
     Math_atan2 := fun y _ => y;
     Math_round := fun x => x |}.

Definition rad8 : float := 0x1.1df46a2529d39p-3%float.
Definition sin8 : float := 0x1.1d06c968d9e19p-3%float.
Definition cos8 : float := 0x1.fb046a930947ap-1%float.
Definition half_pi : float := 0x1.921fb54442d18p+0%float.

Definition sampled_math : JSMath :=
  {| Math_sin := fun x =>
       (if x =? rad8 then sin8
        else if x =? - rad8 then - sin8
        else if x =? half_pi then 1
        else if x =? - half_pi then -1
        else x)%float;
     Math_cos := fun x => (if abs x =? rad8 then cos8 else 1)%float;
     Math_atan2 := fun y x => if is_nan x then nan else y;
     Math_round := fun x => x |}.

(** ** Exact values

    The rational number a finite double denotes, half the gap to its
    neighbours of the same exponent, and the partial sums of the sine and
    cosine series over the rationals: they enclose the real functions and are
    used to check the entries of [sampled_math]. *)

Definition exact (x : float) : Q :=
  match Prim2SF x with
  | S754_finite s m e => (if s then -1 else 1) * inject_Z (Zpos m) * Qpower 2 e
  | _ => 0
  end%Q.

Definition half_ulp (x : float) : Q :=
  match Prim2SF x with
  | S754_finite _ _ e => Qpower 2 (e - 1)
  | _ => 0
  end%Q.

Fixpoint powQ (a : Q) (n : nat) : Q :=
  match n with
  | O => 1
  | S k => a * powQ a k
  end%Q.

Fixpoint factZ (n : nat) : Z :=
  match n with
  | O => 1
  | S k => Z.of_nat (S k) * factZ k
  end%Z.

Definition sin_termQ (a : Q) (i : nat) : Q :=
  (powQ (-1) i * (powQ a (2 * i + 1) / inject_Z (factZ (2 * i + 1))))%Q.

Definition cos_termQ (a : Q) (i : nat) : Q :=
  (powQ (-1) i * (powQ a (2 * i) / inject_Z (factZ (2 * i))))%Q.

Fixpoint sumQ (f : nat -> Q) (n : nat) : Q :=
  match n with
  | O => f O
  | S k => (sumQ f k + f (S k))%Q
  end.

Definition sin_approxQ (a : Q) (n : nat) : Q := sumQ (sin_termQ a) n.
Definition cos_approxQ (a : Q) (n : nat) : Q := sumQ (cos_termQ a) n.

(** The double [y] is the one nearest to the real [f x]: [f x] lies strictly
    within half a gap of [y] (for [y] not a power of two). *)
Definition nearest (f : R -> R) (x y : float) : Prop :=
  (Q2R (exact y - half_ulp y) < f (Q2R (exact x)) < Q2R (exact y + half_ulp y))%R.

(** ** Sample upstream data *)

Definition sample_volcano (name country : jsval) (lat lon : float) : volcano :=
  {| vnum := JUndefined; vName := name; country := country; subregion := JUndefined;
     latitude := lat; longitude := lon; elevation_m := JUndefined;
     obsAbbr := JUndefined; webpage := JUndefined |}.

Definition fuji : volcano :=
  sample_volcano (JString "Fuji") (JString "Japan") 35.25 138.75.
Definition merapi : volcano :=
  sample_volcano (JString "Merapi") (JString "Indonesia") (-7.5) 110.5.
Definition unnamed_land : volcano :=
  sample_volcano (JString "Fuji") JNull 35.25 138.75.

Definition sample_quake (m : float) : feature :=
  {| id := JUndefined; mag := m; place := JUndefined; time := 0; depth := JUndefined |}.

Definition sample_network (seismic_ok volcano_ok : bool) (quakes : list feature)
  (volcanoes : list volcano) : Network :=
  {| seismic_source := fun _ =>
       {| ok := seismic_ok; status := if seismic_ok then 200%Z else 503%Z;
          json := {| metadata_count := JUndefined; features := quakes |} |};
     volcano_source := fun _ =>
       {| ok := volcano_ok; status := if volcano_ok then 200%Z else 502%Z;
          json := volcanoes |} |}.

Definition sample_now : Date := new_Date 1700000000000.

Definition tokyo : report_input :=
  {| report_latitude := 35.5; report_longitude := 139.75; report_radiusKm := 200 |}.

Definition hakone : volcano :=
  sample_volcano (JString "Hakone") (JString "Japan") 35.25 139.

Definition sample_quakes : list feature :=
  [sample_quake 4.5; sample_quake 3; sample_quake 5.5; sample_quake 4].

(** ** Further operations and notions

    The text a template stands for, the [top] handler, and the notions used
    to describe the volcano search and the report beyond the statements
    above. *)

Section Render.
Local Open Scope string_scope.

(** [Number::toString] and [Date.prototype.toISOString] *)
Variable numberToString : float -> string.
Variable toISOString : Date -> string.

(** The string a value turns into when interpolated. *)
Definition ToString (v : jsval) : string :=
  match v with
  | JUndefined => "undefined"
  | JNull => "null"
  | JBool true => "true"
  | JBool false => "false"
  | JNumber x => numberToString x
  | JString s => s
  end.

Definition render_piece (p : piece) : string :=
  match p with
  | Lit s => s
  | Sub v => ToString v
  | Iso d => toISOString d
  end.

Fixpoint render (u : template) : string :=
  match u with
  | [] => ""
  | p :: rest => render_piece p ++ render rest
  end.
End Render.

(** A feature of the seismic source with the properties the [top] handler
    reads besides those of [feature]: [magType], [tsunami], [alert], [url].
    An [event] stands for a feature whose [properties] and
    [geometry.coordinates] are present, an [EventCollection] for an answer
    whose [metadata] is present: reading a property of an absent one is a
    TypeError in the handler, and such answers are outside these records. *)
Record event := {
  event_feature : feature;
  event_magType : jsval;
  event_tsunami : jsval;
  event_alert : jsval;
  event_url : jsval
}.

Record EventCollection := {
  events_count : jsval;
  events : list event
}.

(** [v === 1] *)
Definition strictly_one (v : jsval) : bool :=
  match v with
  | JNumber x => (x =? 1)%float
  | _ => false
  end.

(** [new Date(t).toISOString()] throws a RangeError unless [t] is a time
    value: a number (not NaN, not infinite) at most 8.64e15 ms from the
    epoch. *)
Definition valid_time (t : float) : bool := (abs t <=? 8640000000000000)%float.

Definition toISOString_of (t : float) : option piece :=
  if valid_time t then Some (Iso (new_Date t)) else None.

(** [a.map((f, i) => g(f, i))], counting from [i], for a callback that may
    throw ([None]): the first throw ends the map. *)
Fixpoint map_indexed {A B} (g : A -> nat -> option B) (i : nat) (a : list A)
  : option (list B) :=
  match a with
  | [] => Some []
  | f :: rest =>
      match g f i with
      | None => None
      | Some b =>
          match map_indexed g (S i) rest with
          | None => None
          | Some l => Some (b :: l)
          end
      end
  end.

Record topEarthquake := {
  te_rank : nat;
  te_id : jsval;
  te_magnitude : float;
  te_magnitudeType : jsval;
  te_location : jsval;
  te_time : piece;
  te_depth : template;
  te_tsunami : bool;
  te_alert : jsval;
  te_detailUrl : jsval
}.

Record top_output := {
  to_period : period;
  to_periodStart : piece;
  to_periodEnd : piece;
  to_totalSignificant : jsval;
  to_topEarthquakes : list topEarthquake;
  to_fetchedAt : piece
}.

(** What the [top] handler ends with: its output, the error of the fetch, or
    the RangeError of a time conversion. *)
Inductive failure :=
| Upstream (e : error)
| RangeError.

Inductive result (A : Type) :=
| Returned (a : A)
| Raised (e : failure).
Arguments Returned {A} a.
Arguments Raised {A} e.

(** One entry of the top list. *)
Definition top_entry (f : event) (i : nat) : option topEarthquake :=
  match toISOString_of (time (event_feature f)) with
  | Some t =>
      Some {| te_rank := i + 1;
              te_id := id (event_feature f);
              te_magnitude := mag (event_feature f);
              te_magnitudeType := event_magType f;
              te_location := place (event_feature f);
              te_time := t;
              te_depth := [Sub (depth (event_feature f)); Lit " km"%string];
              te_tsunami := strictly_one (event_tsunami f);
              te_alert := event_alert f;
              te_detailUrl := event_url f |}
  | None => None
  end.

(** The [top] handler. *)
Definition top (source : template -> Response EventCollection) (now : Date)
  (i : top_input) : result top_output :=
  let startTime :=
    new_Date (getTime now - daysBack (top_period i) * 24 * 60 * 60 * 1000)%float in
  match fetchJSON (source (top_url now i)) with
  | Throw e => Raised (Upstream e)
  | Ok data =>
      match map_indexed top_entry 0 (events data) with
      | None => Raised RangeError
      | Some entries =>
          Returned {| to_period := top_period i;
                      to_periodStart := Iso startTime;
                      to_periodEnd := Iso now;
                      to_totalSignificant := events_count data;
                      to_topEarthquakes := entries;
                      to_fetchedAt := Iso now |}
      end
  end.

(** The shape of one record of a volcano search result. *)
Definition found (v : volcano) : foundVolcano :=
  {| fv_id := vnum v;
     fv_name := vName v;
     fv_country := country v;
     fv_region := subregion v;
     fv_coordinates := (latitude v, longitude v);
     fv_elevation := [Sub (elevation_m v); Lit " m"%string];
     fv_observatory := obsAbbr v;
     fv_infoUrl := webpage v |}.

(** The test a filter of the volcano search applies to a field: none when
    the filter is absent or empty. *)
Definition active_test (toLowerCase : string -> string) (q : option string)
  (field : jsval) : bool :=
  match q with
  | Some s => if truthy q then field_test toLowerCase field s else true
  | None => true
  end.

Definition selected (toLowerCase : string -> string) (i : volcanoSearch_input)
  (v : volcano) : bool :=
  active_test toLowerCase (vs_country i) (country v) &&
  active_test toLowerCase (vs_name i) (vName v).

(** A boolean or a number: a value without a [toLowerCase] method. *)
Definition lacks_toLowerCase (v : jsval) : Prop :=
  (exists b, v = JBool b) \/ (exists x, v = JNumber x).

(** Two filters that fold to the same lower-case text and are both empty or
    both not. *)
Definition same_filter (toLowerCase : string -> string) (q1 q2 : option string) : Prop :=
  match q1, q2 with
  | Some a, Some b => toLowerCase a = toLowerCase b /\ truthy q1 = truthy q2
  | None, None => True
  | _, _ => False
  end.

(** The part of a search result that does not echo the request. *)
Definition search_page (r : outcome volcanoSearch_output)
  : outcome (nat * nat * list foundVolcano) :=
  match r with
  | Ok o => Ok (vs_totalMatches o, vs_returned o, vs_volcanoes o)
  | Throw e => Throw e
  end.

(** [Math.sin(NaN)] is NaN (ECMAScript). *)
Definition sin_nan {M : JSMath} : Prop := Math_sin nan = nan.

(** The shape of one entry of the report's earthquake preview. *)
Definition recent (f : feature) : recentEarthquake :=
  {| re_id := id f;
     re_magnitude := mag f;
     re_location := place f;
     re_time := Iso (new_Date (time f));
     re_depth := [Sub (depth f); Lit " km"%string] |}.


(** The records of a list whose key is at most [r]. *)
Definition at_most {A} (key : A -> float) (r : float) (v : A) : bool :=
  (key v <=? r)%float.

(** Further sample data. *)
Definition untyped_land : volcano :=
  sample_volcano (JString "Etna") (JNumber 39) 37.75 15.
Definition uncharted : volcano :=
  sample_volcano (JString "Uncharted") (JString "Japan") nan 139.

Definition sample_event (m t : float) : event :=
  {| event_feature :=
       {| id := JUndefined; mag := m; place := JUndefined; time := t;
          depth := JUndefined |};
     event_magType := JUndefined; event_tsunami := JNumber 1;
     event_alert := JNull; event_url := JUndefined |}.

Definition sample_event_source (is_ok : bool) (l : list event)
  : template -> Response EventCollection :=
  fun _ => {| ok := is_ok; status := if is_ok then 200%Z else 503%Z;
              json := {| events_count := JUndefined; events := l |} |}.

Definition this_week : top_input :=
  {| top_period := week; top_minMagnitude := 5; top_limit := 10 |}.

(** * Facts about binary64 arithmetic

    Derived from the specification of the primitive operations
    ([SpecFloat], [FloatAxioms]): the sign of a difference agrees with the
    comparison of its operands, negation commutes with the rounded
    operations, and products and quotients of bounded operands do not
    overflow. *)

Module Binary64.

Local Open Scope Z_scope.

(** [x] is finite and not zero, or infinite, with sign [s]. *)
Definition signed_nonzero (s : bool) (x : spec_float) : Prop :=
  match x with
  | S754_finite s' _ _ | S754_infinity s' => s' = s
  | _ => False
  end.

(** [x] is a zero or NaN. *)
Definition SFzero_or_nan (x : spec_float) : Prop :=
  match x with
  | S754_zero _ | S754_nan => True
  | _ => False
  end.

(** What [x - y] is when [x] compares to [y] as [c]. *)
Definition sub_outcome (c : comparison) (z : spec_float) : Prop :=
  match c with
  | Lt => signed_nonzero true z
  | Gt => signed_nonzero false z
  | Eq => SFzero_or_nan z
  end.

(** Neither NaN nor infinite. *)
Definition finite_or_zero (x : spec_float) : Prop :=
  match x with
  | S754_zero _ | S754_finite _ _ _ => True
  | _ => False
  end.

Definition sign_of (x : spec_float) : bool :=
  match x with
  | S754_zero s | S754_infinity s | S754_finite s _ _ => s
  | S754_nan => false
  end.

(** Not NaN, with sign [s]. *)
Definition signed (s : bool) (x : spec_float) : Prop :=
  match x with
  | S754_zero s' | S754_finite s' _ _ | S754_infinity s' => s' = s
  | S754_nan => False
  end.

(** Zero, or finite with exponent at most [k]. *)
Definition exp_le (k : Z) (x : spec_float) : Prop :=
  match x with
  | S754_zero _ => True
  | S754_finite _ _ e => e <= k
  | _ => False
  end.

(** ** Mantissas and shifts *)

Lemma digits2_pos_size p : digits2_pos p = Pos.size p.
Proof. induction p; simpl; congruence. Qed.

Lemma digits2_upper p : Zpos p < 2 ^ Zpos (digits2_pos p).
Proof.
  rewrite digits2_pos_size. generalize (Pos.size_gt p).
  rewrite <- Pos2Z.inj_pow. lia.
Qed.

Lemma digits2_lower p : 2 ^ Zpos (digits2_pos p) <= 2 * Zpos p.
Proof.
  rewrite digits2_pos_size. generalize (Pos.size_le p).
  rewrite <- Pos2Z.inj_pow. lia.
Qed.

Lemma iter_xO_val d m : Zpos (Pos.iter xO m d) = Zpos m * 2 ^ Zpos d.
Proof.
  induction d as [|d IH] using Pos.peano_ind.
  - simpl. lia.
  - rewrite Pos.iter_succ, Pos2Z.inj_succ, Z.pow_succ_r by lia.
    rewrite Pos2Z.inj_xO, IH. lia.
Qed.

Lemma shl_align_val m e ez :
  ez <= e -> Zpos (fst (shl_align m e ez)) = Zpos m * 2 ^ (e - ez).
Proof.
  intros H. unfold shl_align.
  destruct (ez - e) as [|d|d] eqn:E; simpl.
  - replace (e - ez) with 0 by lia. rewrite Z.pow_0_r. lia.
  - lia.
  - rewrite iter_xO_val. replace (e - ez) with (Zpos d) by lia. reflexivity.
Qed.

Lemma shl_align_exp m e ez :
  snd (shl_align m e ez) = Z.min e ez.
Proof.
  unfold shl_align. destruct (ez - e) eqn:E; simpl; lia.
Qed.

(* canonical mantissas of binary64 *)
Lemma bounded_inv m e :
  bounded prec emax m e = true ->
  -1074 <= e <= 971 /\ Zpos (digits2_pos m) <= 53 /\
  (-1074 < e -> Zpos (digits2_pos m) = 53).
Proof.
  unfold bounded, canonical_mantissa, fexp, emin, prec, emax.
  intros H. apply andb_true_iff in H as [H1 H2].
  apply Z.eqb_eq in H1. apply Z.leb_le in H2. lia.
Qed.

Lemma shr_1_digits r :
  0 <= shr_m r ->
  0 <= shr_m (shr_1 r) /\
  Zdigits2 (shr_m (shr_1 r)) = Z.max 0 (Zdigits2 (shr_m r) - 1).
Proof.
  destruct r as [m r s]. cbn [shr_m]. intros Hm.
  destruct m as [|[p|p|]|p]; cbn [shr_m shr_1 Zdigits2 digits2_pos]; try lia.
Qed.

Lemma iter_shr_1_digits p : forall r,
  0 <= shr_m r ->
  0 <= shr_m (iter_pos shr_1 p r) /\
  Zdigits2 (shr_m (iter_pos shr_1 p r)) = Z.max 0 (Zdigits2 (shr_m r) - Zpos p).
Proof.
  induction p as [p IH|p IH|]; intros r Hr; simpl iter_pos.
  - destruct (shr_1_digits r Hr) as [H1 H2].
    destruct (IH _ H1) as [H3 H4]. destruct (IH _ H3) as [H5 H6].
    split; [assumption|]. rewrite H6, H4, H2. lia.
  - destruct (IH _ Hr) as [H3 H4]. destruct (IH _ H3) as [H5 H6].
    split; [assumption|]. rewrite H6, H4. lia.
  - apply shr_1_digits; assumption.
Qed.

Lemma Zdigits2_pos_nonneg m : 0 <= m -> 0 < Zdigits2 m -> exists p, m = Zpos p.
Proof. destruct m; simpl; intros; try lia. eauto. Qed.

(** ** Rounding an exact non-zero value keeps its sign *)

Lemma shr_fexp_pos m e :
  -1074 <= e ->
  exists m' r s e',
    shr_fexp prec emax (Zpos m) e loc_Exact = (Build_shr_record (Zpos m') r s, e')
    /\ -1074 <= e'.
Proof.
  intros He. unfold shr_fexp, shr, fexp, emin, prec, emax. simpl shr_record_of_loc.
  set (d := Zdigits2 (Zpos m)).
  assert (Hd : 0 < d) by (unfold d; simpl; lia).
  destruct (Z.max (d + e - 53) (3 - 1024 - 53) - e) as [|p|p] eqn:E.
  - exists m, false, false, e. split; [reflexivity|lia].
  - destruct (iter_shr_1_digits p (Build_shr_record (Zpos m) false false)) as [H1 H2];
      [simpl; lia|].
    simpl shr_m in H2. fold d in H2.
    destruct (Zdigits2_pos_nonneg _ H1) as [m' Hm']; [lia|].
    destruct (iter_pos shr_1 p _) as [mm rr ss]. simpl in Hm'. subst mm.
    exists m', rr, ss, (e + Zpos p). split; [reflexivity|lia].
  - exists m, false, false, e. split; [reflexivity|lia].
Qed.

Lemma round_nearest_even_pos m l : exists m', round_nearest_even (Zpos m) l = Zpos m'.
Proof.
  destruct l as [|[| |]]; cbn [round_nearest_even].
  - eauto.
  - destruct (Z.even (Zpos m)); [eauto|]. exists (m + 1)%positive. reflexivity.
  - eauto.
  - exists (m + 1)%positive. reflexivity.
Qed.

Lemma binary_round_aux_sign s m e :
  -1074 <= e ->
  signed_nonzero s (binary_round_aux prec emax s (Zpos m) e loc_Exact).
Proof.
  intros He. unfold binary_round_aux.
  destruct (shr_fexp_pos m e He) as (m1 & r1 & s1 & e1 & E1 & He1).
  rewrite E1. cbn [shr_m].
  destruct (round_nearest_even_pos m1 (loc_of_shr_record (Build_shr_record (Zpos m1) r1 s1)))
    as [m2 E2].
  rewrite E2.
  destruct (shr_fexp_pos m2 e1 He1) as (m3 & r3 & s3 & e3 & E3 & He3).
  rewrite E3. cbn [shr_m].
  destruct (e3 <=? emax - prec); reflexivity.
Qed.

Lemma binary_round_sign s m e :
  -1074 <= e ->
  signed_nonzero s (binary_round prec emax s m e).
Proof.
  intros He. unfold binary_round.
  destruct (shl_align m e _) as [mz ez] eqn:E.
  apply binary_round_aux_sign.
  change ez with (snd (mz, ez)). rewrite <- E, shl_align_exp.
  unfold fexp, emin, prec, emax. lia.
Qed.

Lemma binary_normalize_sign m e :
  -1074 <= e ->
  match m with
  | Z0 => True
  | Zpos _ => signed_nonzero false (binary_normalize prec emax m e false)
  | Zneg _ => signed_nonzero true (binary_normalize prec emax m e false)
  end.
Proof.
  intros He. destruct m; simpl; auto using binary_round_sign.
Qed.

(** ** The sign of a difference

    Canonical mantissas compare like the values they denote once aligned on
    the smaller exponent. *)

Lemma magnitude_compare mx ex my ey :
  bounded prec emax mx ex = true -> bounded prec emax my ey = true ->
  (Zpos (fst (shl_align mx ex (Z.min ex ey))) ?= Zpos (fst (shl_align my ey (Z.min ex ey))))
  = match ex ?= ey with
    | Lt => Lt
    | Gt => Gt
    | Eq => Pos.compare_cont Eq mx my
    end.
Proof.
  intros Hx Hy.
  apply bounded_inv in Hx as (Hex & Hdx & Hnx), Hy as (Hey & Hdy & Hny).
  rewrite !shl_align_val by lia.
  pose proof (digits2_upper mx) as Ux. pose proof (digits2_lower mx) as Lx.
  pose proof (digits2_upper my) as Uy. pose proof (digits2_lower my) as Ly.
  destruct (Z.compare_spec ex ey) as [E|E|E].
  - subst ey. rewrite Z.min_id, Z.sub_diag, Z.pow_0_r, !Z.mul_1_r. reflexivity.
  - rewrite Z.min_l by lia. rewrite Z.sub_diag, Z.pow_0_r, Z.mul_1_r.
    apply Z.compare_lt_iff.
    rewrite Hny in Ly by lia.
    assert (Hp : 2 ^ 1 <= 2 ^ (ey - ex)) by (apply Z.pow_le_mono_r; lia).
    assert (Hq : Zpos mx < 2 ^ 53).
    { eapply Z.lt_le_trans; [exact Ux|]. apply Z.pow_le_mono_r; lia. }
    change (2 ^ 1) with 2 in Hp. change (2 ^ 53) with 9007199254740992 in *.
    nia.
  - rewrite Z.min_r by lia. rewrite Z.sub_diag, Z.pow_0_r, Z.mul_1_r.
    apply Z.compare_gt_iff.
    rewrite Hnx in Lx by lia.
    assert (Hp : 2 ^ 1 <= 2 ^ (ex - ey)) by (apply Z.pow_le_mono_r; lia).
    assert (Hq : Zpos my < 2 ^ 53).
    { eapply Z.lt_le_trans; [exact Uy|]. apply Z.pow_le_mono_r; lia. }
    change (2 ^ 1) with 2 in Hp. change (2 ^ 53) with 9007199254740992 in *.
    nia.
Qed.

Lemma SFsub_sign_finite sx mx ex sy my ey :
  bounded prec emax mx ex = true -> bounded prec emax my ey = true ->
  forall c, SFcompare (S754_finite sx mx ex) (S754_finite sy my ey) = Some c ->
  sub_outcome c (SF64sub (S754_finite sx mx ex) (S754_finite sy my ey)).
Proof.
  intros Hx Hy c Hc.
  pose proof (magnitude_compare mx ex my ey Hx Hy) as M.
  apply bounded_inv in Hx as (Hex & _), Hy as (Hey & _).
  assert (He : -1074 <= Z.min ex ey) by lia.
  unfold SF64sub, SFsub.
  set (A := Zpos (fst (shl_align mx ex (Z.min ex ey)))) in *.
  set (B := Zpos (fst (shl_align my ey (Z.min ex ey)))) in *.
  assert (HA : 0 < A) by (unfold A; lia).
  assert (HB : 0 < B) by (unfold B; lia).
  cbv zeta.
  match goal with
  | |- context [binary_normalize _ _ ?z _ _] =>
      pose proof (binary_normalize_sign z (Z.min ex ey) He) as N;
      set (D := z) in *
  end.
  assert (HD : match c with Lt => D < 0 | Gt => 0 < D | Eq => D = 0 end).
  { cbn [SFcompare] in Hc. unfold D.
    destruct sx, sy; cbn [cond_Zopp]; injection Hc as <-; try lia.
    all: destruct (ex ?= ey); [destruct (Pos.compare_cont Eq mx my)|..]; cbn [CompOpp].
    all: rewrite ?Z.compare_eq_iff, ?Z.compare_lt_iff, ?Z.compare_gt_iff in M; lia. }
  change (IntDef.Z.min ex ey) with (Z.min ex ey).
  destruct c, D; try lia; try exact N.
Qed.

Lemma SFsub_sign x y c :
  valid_binary x = true -> valid_binary y = true ->
  SFcompare x y = Some c -> sub_outcome c (SF64sub x y).
Proof.
  intros Hx Hy Hc.
  destruct x as [sx|sx| |sx mx ex], y as [sy|sy| |sy my ey];
    try (apply SFsub_sign_finite; assumption);
    try discriminate Hc;
    try (destruct sx); try (destruct sy);
    cbn in Hc; injection Hc as <-; cbn; auto.
Qed.

(** ** Comparison *)

Lemma SFcompare_antisym x y :
  SFcompare y x = option_map CompOpp (SFcompare x y).
Proof.
  destruct x as [sx|sx| |sx mx ex], y as [sy|sy| |sy my ey];
    try (destruct sx); try (destruct sy); try reflexivity.
  all: cbn; f_equal; rewrite (Z.compare_antisym ex ey);
    destruct (ex ?= ey); cbn; try reflexivity.
  all: rewrite (ZC4 mx my); try reflexivity.
  all: destruct (Pos.compare_cont Eq my mx); reflexivity.
Qed.

Lemma SFcompare_Eq_trans x y d :
  SFcompare x d = Some Eq -> SFcompare y d = Some Eq -> SFcompare x y = Some Eq.
Proof.
  destruct x as [sx|sx| |sx mx ex], y as [sy|sy| |sy my ey], d as [sd|sd| |sd md ed];
    try (destruct sx); try (destruct sy); try (destruct sd);
    cbn; try discriminate; try reflexivity.
  all: intros H1 H2; f_equal.
  all: destruct (Z.compare_spec ex ed); try discriminate.
  all: destruct (Z.compare_spec ey ed); try discriminate.
  all: subst; rewrite Z.compare_refl.
  all: destruct (Pos.compare_cont Eq mx md) eqn:E1; try discriminate.
  all: destruct (Pos.compare_cont Eq my md) eqn:E2; try discriminate.
  all: apply Pcompare_Eq_eq in E1, E2; subst; rewrite Pcompare_refl; reflexivity.
Qed.

Local Open Scope float_scope.

Lemma SFltb_zero_outcome c z :
  sub_outcome c z ->
  SFltb (S754_zero false) z = match c with Gt => true | _ => false end.
Proof.
  destruct c, z as [s|s| |s m e]; cbn; try contradiction; try reflexivity;
    intros ->; reflexivity.
Qed.

Lemma SFcompare_self x : x <> S754_nan -> SFcompare x x = Some Eq.
Proof.
  destruct x as [s|s| |s m e]; try destruct s; cbn; try congruence;
    intros _; rewrite Z.compare_refl, Pcompare_refl; reflexivity.
Qed.

Lemma SFcompare_defined x y :
  x <> S754_nan -> y <> S754_nan -> exists c, SFcompare x y = Some c.
Proof.
  destruct x, y; cbn; try congruence; eauto.
Qed.

Lemma eqb_self_not_nan x : (x =? x) = true <-> Prim2SF x <> S754_nan.
Proof.
  rewrite eqb_spec. unfold SFeqb. split.
  - intros H E. rewrite E in H. discriminate.
  - intros H. rewrite SFcompare_self by assumption. reflexivity.
Qed.

Lemma leb_not_nan_l x r : (x <=? r) = true -> (x =? x) = true.
Proof.
  rewrite leb_spec. intros H. apply eqb_self_not_nan. intros E.
  rewrite E in H. discriminate.
Qed.

(** The comparator of a numeric sort: [0 < x - y] exactly when [x > y]. *)
Lemma float_sub_compare x y c :
  SFcompare (Prim2SF x) (Prim2SF y) = Some c ->
  (0 <? x - y) = match c with Gt => true | _ => false end.
Proof.
  intros H. rewrite ltb_spec, sub_spec.
  change (Prim2SF 0) with (S754_zero false).
  apply SFltb_zero_outcome, SFsub_sign; auto using Prim2SF_valid.
Qed.

Lemma sub_pos_of_not_le x y :
  (x =? x) = true -> (y =? y) = true -> (x <=? y) = false -> (0 <? x - y) = true.
Proof.
  intros Hx Hy Hle.
  apply eqb_self_not_nan in Hx, Hy.
  destruct (SFcompare_defined _ _ Hx Hy) as [c Hc].
  rewrite (float_sub_compare _ _ _ Hc).
  rewrite leb_spec in Hle. unfold SFleb in Hle. rewrite Hc in Hle.
  destruct c; congruence.
Qed.

Lemma sub_pos_le x y : (0 <? x - y) = true -> (y <=? x) = true.
Proof.
  intros H. rewrite leb_spec. unfold SFleb.
  destruct (SFcompare (Prim2SF x) (Prim2SF y)) as [c|] eqn:Hc.
  - rewrite (float_sub_compare _ _ _ Hc) in H.
    rewrite SFcompare_antisym, Hc. destruct c; simpl; congruence.
  - exfalso. rewrite ltb_spec, sub_spec in H.
    destruct (Prim2SF x) as [sx|sx| |sx mx ex], (Prim2SF y) as [sy|sy| |sy my ey];
      try discriminate Hc; cbn in H; discriminate H.
Qed.

Lemma sub_pos_not_tied x y d :
  (0 <? x - y) = true -> (x =? d) = true -> (y =? d) = true -> False.
Proof.
  rewrite !eqb_spec. unfold SFeqb. intros H Hx Hy.
  destruct (SFcompare (Prim2SF x) (Prim2SF d)) as [[| |]|] eqn:Ex; try discriminate.
  destruct (SFcompare (Prim2SF y) (Prim2SF d)) as [[| |]|] eqn:Ey; try discriminate.
  rewrite (float_sub_compare _ _ _ (SFcompare_Eq_trans _ _ _ Ex Ey)) in H.
  discriminate.
Qed.

Local Open Scope Z_scope.

(** ** Exponent and digit count after rounding; absence of overflow *)

Lemma shr_record_of_loc_m m l : shr_m (shr_record_of_loc m l) = m.
Proof. destruct l as [|[| |]]; reflexivity. Qed.

Lemma shr_fexp_spec m e l :
  0 <= m ->
  0 <= shr_m (fst (shr_fexp prec emax m e l)) /\
  snd (shr_fexp prec emax m e l) = Z.max e (fexp prec emax (Zdigits2 m + e)) /\
  Zdigits2 (shr_m (fst (shr_fexp prec emax m e l))) =
    Z.max 0 (Zdigits2 m - Z.max 0 (fexp prec emax (Zdigits2 m + e) - e)).
Proof.
  intros Hm. unfold shr_fexp, shr.
  assert (Hd : 0 <= Zdigits2 m) by (destruct m; simpl; lia).
  destruct (fexp prec emax (Zdigits2 m + e) - e) as [|p|p] eqn:E; cbn [fst snd].
  - rewrite shr_record_of_loc_m. lia.
  - destruct (iter_shr_1_digits p (shr_record_of_loc m l)) as [H1 H2];
      [rewrite shr_record_of_loc_m; lia|].
    rewrite shr_record_of_loc_m in H2. lia.
  - rewrite shr_record_of_loc_m. lia.
Qed.

Lemma round_nearest_even_bounds m l :
  0 <= m -> m <= round_nearest_even m l <= m + 1.
Proof.
  intros Hm. destruct l as [|[| |]]; cbn [round_nearest_even];
    try destruct (Z.even m); lia.
Qed.

Lemma Zdigits2_le m k : 0 <= m -> 0 <= k -> m < 2 ^ k -> Zdigits2 m <= k.
Proof.
  intros Hm Hk H. destruct m as [|p|p]; simpl; try lia.
  pose proof (digits2_lower p) as L.
  destruct (Z.le_gt_cases (Zpos (digits2_pos p)) k) as [|G]; [assumption|].
  assert (2 ^ (k + 1) <= 2 ^ Zpos (digits2_pos p)) by (apply Z.pow_le_mono_r; lia).
  replace (k + 1) with (Z.succ k) in H0 by lia.
  rewrite Z.pow_succ_r in H0 by lia. lia.
Qed.

Lemma Zdigits2_upper m : 0 <= m -> m < 2 ^ Zdigits2 m.
Proof.
  destruct m as [|p|p]; simpl; intros; try lia. apply digits2_upper.
Qed.

Lemma binary_round_aux_no_overflow s m e l :
  0 <= m -> e <= 970 -> Zdigits2 m + e <= 1023 ->
  finite_or_zero (binary_round_aux prec emax s m e l) /\
  sign_of (binary_round_aux prec emax s m e l) = s.
Proof.
  intros Hm He Hd. unfold binary_round_aux.
  destruct (shr_fexp_spec m e l Hm) as (P1 & E1 & D1).
  destruct (shr_fexp prec emax m e l) as [r1 e1]. cbn [fst snd] in *.
  set (m2 := round_nearest_even (shr_m r1) (loc_of_shr_record r1)).
  pose proof (round_nearest_even_bounds (shr_m r1) (loc_of_shr_record r1) P1) as B2.
  fold m2 in B2.
  assert (Hm2 : 0 <= m2) by lia.
  destruct (shr_fexp_spec m2 e1 loc_Exact Hm2) as (P3 & E3 & D3).
  destruct (shr_fexp prec emax m2 e1 loc_Exact) as [r3 e3]. cbn [fst snd] in *.
  assert (Hd1 : Zdigits2 (shr_m r1) <= 53).
  { rewrite D1. unfold fexp, emin, prec, emax. lia. }
  assert (Hd2 : Zdigits2 m2 <= 54).
  { apply Zdigits2_le; try lia.
    pose proof (Zdigits2_upper _ P1) as U.
    assert (2 ^ Zdigits2 (shr_m r1) <= 2 ^ 53).
    { apply Z.pow_le_mono_r; try lia. }
    change (2 ^ 54) with (2 * 2 ^ 53). lia. }
  assert (He3 : e3 <= 971).
  { rewrite E3, E1. unfold fexp, emin, prec, emax in *. lia. }
  destruct (shr_m r3) as [|p|p]; try lia.
  - split; reflexivity.
  - unfold emax, prec. replace (e3 <=? 1024 - 53) with true
      by (symmetry; apply Z.leb_le; lia).
    split; reflexivity.
Qed.

Lemma binary_round_aux_not_nan s m e l :
  0 <= m -> binary_round_aux prec emax s m e l <> S754_nan.
Proof.
  intros Hm. unfold binary_round_aux.
  destruct (shr_fexp_spec m e l Hm) as (P1 & _).
  destruct (shr_fexp prec emax m e l) as [r1 e1]. cbn [fst snd] in *.
  pose proof (round_nearest_even_bounds (shr_m r1) (loc_of_shr_record r1) P1) as B2.
  set (m2 := round_nearest_even (shr_m r1) (loc_of_shr_record r1)) in *.
  assert (Hm2 : 0 <= m2) by lia.
  destruct (shr_fexp_spec m2 e1 loc_Exact Hm2) as (P3 & _).
  destruct (shr_fexp prec emax m2 e1 loc_Exact) as [r3 e3]. cbn [fst snd] in *.
  destruct (shr_m r3) as [|p|p]; try lia; try discriminate.
  destruct (e3 <=? emax - prec); discriminate.
Qed.

(** ** Negation commutes with multiplication, division and subtraction *)

Lemma binary_round_aux_opp s m e l :
  binary_round_aux prec emax (negb s) m e l = SFopp (binary_round_aux prec emax s m e l).
Proof.
  unfold binary_round_aux.
  destruct (shr_fexp prec emax m e l) as [r1 e1].
  destruct (shr_fexp prec emax _ e1 loc_Exact) as [r3 e3].
  destruct (shr_m r3); try reflexivity.
  destruct (e3 <=? emax - prec); reflexivity.
Qed.

Lemma SFmul_opp_l x y : SF64mul (SFopp x) y = SFopp (SF64mul x y).
Proof.
  destruct x as [sx|sx| |sx mx ex], y as [sy|sy| |sy my ey]; cbn;
    rewrite <- ?negb_xorb_l; try reflexivity.
  apply binary_round_aux_opp.
Qed.

Lemma SFmul_opp_r x y : SF64mul x (SFopp y) = SFopp (SF64mul x y).
Proof.
  destruct x as [sx|sx| |sx mx ex], y as [sy|sy| |sy my ey]; cbn;
    rewrite <- ?negb_xorb_r; try reflexivity.
  apply binary_round_aux_opp.
Qed.

Lemma SFmul_comm x y : SF64mul x y = SF64mul y x.
Proof.
  destruct x as [sx|sx| |sx mx ex], y as [sy|sy| |sy my ey]; cbn;
    rewrite ?(xorb_comm sx sy); try reflexivity.
  rewrite (Pos.mul_comm mx my), (Z.add_comm ex ey). reflexivity.
Qed.

Lemma SFdiv_opp_l x y : SF64div (SFopp x) y = SFopp (SF64div x y).
Proof.
  destruct x as [sx|sx| |sx mx ex], y as [sy|sy| |sy my ey]; cbn -[SFdiv_core_binary];
    rewrite <- ?negb_xorb_l; try reflexivity.
  destruct (SFdiv_core_binary prec emax (Zpos mx) ex (Zpos my) ey) as [[mz ez] lz].
  apply binary_round_aux_opp.
Qed.

Lemma SFopp_involutive x : SFopp (SFopp x) = x.
Proof. destruct x; cbn; rewrite ?negb_involutive; reflexivity. Qed.

Lemma binary_normalize_opp m e :
  m <> 0 ->
  binary_normalize prec emax (- m) e false = SFopp (binary_normalize prec emax m e false).
Proof.
  intros Hm. destruct m as [|p|p]; [congruence| |]; cbn [Z.opp binary_normalize];
    unfold binary_round; destruct (shl_align p e _) as [mz ez].
  - apply (binary_round_aux_opp false).
  - change true with (negb false).
    rewrite binary_round_aux_opp, SFopp_involutive. reflexivity.
Qed.

Lemma SFsub_swap x y :
  SF64sub y x = SFopp (SF64sub x y) \/ SF64sub y x = SF64sub x y.
Proof.
  destruct x as [sx|sx| |sx mx ex], y as [sy|sy| |sy my ey];
    try (destruct sx; destruct sy; cbn; auto; fail);
    try (destruct sx; cbn; auto; fail);
    try (destruct sy; cbn; auto; fail); try (cbn; auto; fail).
  unfold SF64sub, SFsub. cbv zeta. rewrite (Z.min_comm ey ex).
  match goal with
  | |- context [binary_normalize _ _ (?a - ?b) _ _] =>
      destruct (Z.eq_dec (b - a) 0) as [E|E];
      [right; replace (a - b) with (b - a) by lia; reflexivity
      |left; replace (a - b) with (- (b - a)) by lia;
       apply binary_normalize_opp; exact E]
  end.
Qed.

Local Open Scope float_scope.

Lemma mul_opp_l x y : (- x) * y = - (x * y).
Proof.
  apply Prim2SF_inj. rewrite mul_spec, !opp_spec, mul_spec. apply SFmul_opp_l.
Qed.

Lemma mul_opp_r x y : x * (- y) = - (x * y).
Proof.
  apply Prim2SF_inj. rewrite mul_spec, !opp_spec, mul_spec. apply SFmul_opp_r.
Qed.

Lemma opp_involutive x : - - x = x.
Proof. apply Prim2SF_inj. rewrite !opp_spec. apply SFopp_involutive. Qed.

Lemma mul_opp_opp x y : (- x) * (- y) = x * y.
Proof. rewrite mul_opp_l, mul_opp_r. apply opp_involutive. Qed.

Lemma mul_comm x y : x * y = y * x.
Proof. apply Prim2SF_inj. rewrite !mul_spec. apply SFmul_comm. Qed.

Lemma div_opp_l x y : (- x) / y = - (x / y).
Proof.
  apply Prim2SF_inj. rewrite div_spec, !opp_spec, div_spec. apply SFdiv_opp_l.
Qed.

Lemma sub_swap x y : y - x = - (x - y) \/ y - x = x - y.
Proof.
  destruct (SFsub_swap (Prim2SF x) (Prim2SF y)) as [H|H]; [left|right];
    apply Prim2SF_inj; rewrite ?opp_spec, !sub_spec; exact H.
Qed.

Lemma is_finite_spec x : is_finite x = true <-> finite_or_zero (Prim2SF x).
Proof.
  unfold is_finite, is_nan, is_infinity.
  rewrite !eqb_spec, abs_spec.
  change (Prim2SF infinity) with (S754_infinity false).
  destruct (Prim2SF x) as [s|s| |s m e] eqn:E; unfold SFeqb;
    rewrite ?SFcompare_self by discriminate; cbn;
    split; intros H; try contradiction; try discriminate; auto.
Qed.

Lemma sub_diag x : is_finite x = true -> x - x = 0.
Proof.
  intros H. apply is_finite_spec in H. apply Prim2SF_inj. rewrite sub_spec.
  change (Prim2SF 0) with (S754_zero false).
  destruct (Prim2SF x) as [s|s| |s m e]; try contradiction.
  - destruct s; reflexivity.
  - unfold SF64sub, SFsub. cbv zeta. rewrite Z.sub_diag. reflexivity.
Qed.

Local Open Scope Z_scope.

(** ** Bounded operands *)

Lemma SFleb_abs_exponent x m0 e0 :
  SFleb (SFabs x) (S754_finite false m0 e0) = true -> exp_le e0 x.
Proof.
  destruct x as [s|s| |s m e]; cbn; try discriminate; auto.
  destruct (Z.compare_spec e e0); try discriminate; lia.
Qed.

Lemma SFleb_range_exponent x m0 e0 :
  SFleb (S754_finite true m0 e0) x = true ->
  SFleb x (S754_finite false m0 e0) = true -> exp_le e0 x.
Proof.
  destruct x as [s|s| |s m e]; try destruct s; cbn; try discriminate; auto.
  - intros H _. rewrite Z.compare_antisym in H.
    destruct (Z.compare_spec e e0); try discriminate; lia.
  - intros _ H. destruct (Z.compare_spec e e0); try discriminate; lia.
Qed.

Lemma digits2_mul_le mx my :
  Zpos (digits2_pos mx) <= 53 -> Zpos (digits2_pos my) <= 53 ->
  Zdigits2 (Zpos (mx * my)) <= 106.
Proof.
  intros Hx Hy. apply Zdigits2_le; try lia.
  pose proof (digits2_upper mx) as Ux. pose proof (digits2_upper my) as Uy.
  assert (2 ^ Zpos (digits2_pos mx) <= 2 ^ 53) by (apply Z.pow_le_mono_r; lia).
  assert (2 ^ Zpos (digits2_pos my) <= 2 ^ 53) by (apply Z.pow_le_mono_r; lia).
  change (2 ^ 106) with (2 ^ 53 * 2 ^ 53).
  rewrite Pos2Z.inj_mul.
  apply Z.mul_lt_mono_nonneg; lia.
Qed.

Lemma SFmul_no_overflow x y kx ky :
  valid_binary x = true -> valid_binary y = true ->
  exp_le kx x -> exp_le ky y -> kx + ky <= 917 ->
  finite_or_zero (SF64mul x y) /\
  sign_of (SF64mul x y) = xorb (sign_of x) (sign_of y).
Proof.
  intros Vx Vy Hx Hy Hk.
  destruct x as [sx|sx| |sx mx ex], y as [sy|sy| |sy my ey];
    try contradiction; cbn [SF64mul SFmul sign_of finite_or_zero]; auto.
  cbn in Vx, Vy, Hx, Hy.
  apply bounded_inv in Vx as (_ & Dx & _), Vy as (_ & Dy & _).
  pose proof (digits2_mul_le mx my Dx Dy).
  apply binary_round_aux_no_overflow; lia.
Qed.

Lemma SFdiv_core_bounds mx ex my ey :
  bounded prec emax mx ex = true ->
  Zpos (digits2_pos my) = 53 -> -51 <= ey ->
  0 <= fst (fst (SFdiv_core_binary prec emax (Zpos mx) ex (Zpos my) ey)) /\
  snd (fst (SFdiv_core_binary prec emax (Zpos mx) ex (Zpos my) ey)) <= 970 /\
  Zdigits2 (fst (fst (SFdiv_core_binary prec emax (Zpos mx) ex (Zpos my) ey))) +
    snd (fst (SFdiv_core_binary prec emax (Zpos mx) ex (Zpos my) ey)) <= 1023.
Proof.
  intros Vx Dy Hey. apply bounded_inv in Vx as (Hex & Dx & _).
  unfold SFdiv_core_binary. cbn [Zdigits2]. rewrite Dy.
  set (d1 := Zpos (digits2_pos mx)) in *.
  set (e' := Z.min (fexp prec emax (d1 + ex - (53 + ey))) (ex - ey)).
  assert (He' : e' <= 970 /\ e' <= ex - ey).
  { unfold e', fexp, emin, prec, emax. lia. }
  set (s := ex - ey - e').
  assert (Hs : 0 <= s) by (unfold s; lia).
  set (m' := match s with Zpos _ => Z.shiftl (Zpos mx) s | 0 => Zpos mx | Zneg _ => 0 end).
  assert (Hm' : m' = Zpos mx * 2 ^ s).
  { unfold m'. destruct s as [|p|p] eqn:Es; try lia.
    rewrite Z.shiftl_mul_pow2 by lia. reflexivity. }
  pose proof (Z_div_mod m' (Zpos my) eq_refl) as DM.
  destruct (Z.div_eucl m' (Zpos my)) as [q r]. cbn [fst snd].
  destruct DM as [Eq Hr].
  pose proof (digits2_upper mx) as Ux. fold d1 in Ux.
  pose proof (digits2_lower my) as Ly. rewrite Dy in Ly.
  change (2 ^ 53) with (2 * 2 ^ 52) in Ly.
  assert (P52 : 0 < 2 ^ 52) by reflexivity.
  assert (Ps : 0 < 2 ^ s) by (apply Z.pow_pos_nonneg; lia).
  assert (Hq : 0 <= q) by nia.
  assert (Hlt : q * 2 ^ 52 < 2 ^ (d1 + s)).
  { rewrite Z.pow_add_r by (unfold d1; lia). nia. }
  split; [assumption|]. split; [lia|].
  assert (Hdq : Zdigits2 q <= Z.max 0 (d1 + s - 52)).
  { apply Zdigits2_le; try lia.
    destruct (Z.le_gt_cases 52 (d1 + s)) as [L|G].
    - rewrite Z.max_r by lia.
      replace (d1 + s) with ((d1 + s - 52) + 52) in Hlt by lia.
      rewrite Z.pow_add_r in Hlt by lia.
      apply Z.mul_lt_mono_pos_r in Hlt; lia.
    - rewrite Z.max_l by lia.
      assert (2 ^ (d1 + s) <= 2 ^ 52) by (apply Z.pow_le_mono_r; lia).
      change (2 ^ 0) with 1. nia. }
  unfold s, d1 in *. lia.
Qed.

Lemma SFdiv_no_overflow x sy my ey :
  valid_binary x = true -> finite_or_zero x ->
  Zpos (digits2_pos my) = 53 -> -51 <= ey ->
  finite_or_zero (SF64div x (S754_finite sy my ey)).
Proof.
  intros Vx Fx Dy Hey.
  destruct x as [sx|sx| |sx mx ex]; try contradiction; [exact I|].
  unfold SF64div, SFdiv.
  pose proof (SFdiv_core_bounds mx ex my ey Vx Dy Hey) as (H1 & H2 & H3).
  destruct (SFdiv_core_binary prec emax (Zpos mx) ex (Zpos my) ey) as [[mz ez] lz].
  cbn [fst snd] in *.
  apply binary_round_aux_no_overflow; assumption.
Qed.

(** ** Square roots *)

Lemma SFsqrt_core_nonneg m e :
  0 <= fst (fst (SFsqrt_core_binary prec emax (Zpos m) e)).
Proof.
  unfold SFsqrt_core_binary.
  set (s := e - 2 * _).
  set (m' := match s with Zpos _ => Z.shiftl (Zpos m) s | 0 => Zpos m | Zneg _ => 0 end).
  assert (Hm' : 0 <= m').
  { unfold m'. destruct s; try lia. apply Z.shiftl_nonneg. lia. }
  pose proof (Z.sqrtrem_spec m' Hm') as S.
  destruct (Z.sqrtrem m') as [q r]. cbn [fst]. nia.
Qed.

Lemma SFsqrt_not_nan x :
  SFleb (S754_zero false) x = true -> SF64sqrt x <> S754_nan.
Proof.
  destruct x as [s|s| |s m e]; try destruct s; cbn -[SFsqrt_core_binary];
    try discriminate.
  intros _.
  pose proof (SFsqrt_core_nonneg m e) as H.
  destruct (SFsqrt_core_binary prec emax (Zpos m) e) as [[mz ez] lz].
  apply binary_round_aux_not_nan. exact H.
Qed.

Lemma SFsqrt_negative x : signed_nonzero true x -> SF64sqrt x = S754_nan.
Proof.
  destruct x as [s|s| |s m e]; cbn; try contradiction; intros ->; reflexivity.
Qed.

Lemma binary_normalize_not_nan m e : binary_normalize prec emax m e false <> S754_nan.
Proof.
  destruct m as [|p|p]; cbn [binary_normalize]; try discriminate;
    unfold binary_round; destruct (shl_align p e _) as [mz ez];
    apply binary_round_aux_not_nan; lia.
Qed.

Lemma SFsub_not_nan x y :
  finite_or_zero x -> y <> S754_nan -> SF64sub x y <> S754_nan.
Proof.
  destruct x as [sx|sx| |sx mx ex], y as [sy|sy| |sy my ey];
    try contradiction; try congruence; intros _ _;
    try (destruct sx; destruct sy; discriminate); try discriminate.
  apply binary_normalize_not_nan.
Qed.

Local Open Scope float_scope.

Lemma binary_round_aux_signed s m e l :
  (0 <= m)%Z -> signed s (binary_round_aux prec emax s m e l).
Proof.
  intros Hm. pose proof (binary_round_aux_not_nan s m e l Hm) as N.
  unfold binary_round_aux in *.
  destruct (shr_fexp prec emax m e l) as [r1 e1].
  destruct (shr_fexp prec emax _ e1 loc_Exact) as [r3 e3].
  destruct (shr_m r3); try reflexivity; [|congruence].
  destruct (e3 <=? emax - prec)%Z; reflexivity.
Qed.

Lemma signed_nonneg x : signed false x -> SFleb (S754_zero false) x = true.
Proof. destruct x as [s|s| |s m e]; cbn; try contradiction; intros ->; reflexivity. Qed.

Lemma SFsqrt_nonneg x :
  SFleb (S754_zero false) x = true -> SFleb (S754_zero false) (SF64sqrt x) = true.
Proof.
  destruct x as [s|s| |s m e]; try destruct s; cbn -[SFsqrt_core_binary];
    try discriminate; try reflexivity.
  intros _.
  pose proof (SFsqrt_core_nonneg m e) as H.
  destruct (SFsqrt_core_binary prec emax (Zpos m) e) as [[mz ez] lz].
  apply signed_nonneg, binary_round_aux_signed. exact H.
Qed.

Lemma SFmul_nonneg mc ec y :
  SFleb (S754_zero false) y = true ->
  SFleb (S754_zero false) (SF64mul (S754_finite false mc ec) y) = true.
Proof.
  destruct y as [s|s| |s m e]; try destruct s; cbn; try discriminate;
    try reflexivity.
  intros _. apply signed_nonneg, (binary_round_aux_signed false). lia.
Qed.

Lemma is_nan_spec x : is_nan x = false <-> Prim2SF x <> S754_nan.
Proof.
  unfold is_nan. rewrite <- eqb_self_not_nan.
  destruct (x =? x); cbn; intuition congruence.
Qed.

Lemma sqrt_not_nan a : (0 <=? a) = true -> is_nan (sqrt a) = false.
Proof.
  rewrite leb_spec. change (Prim2SF 0) with (S754_zero false). intros H.
  apply is_nan_spec. rewrite sqrt_spec. apply SFsqrt_not_nan, H.
Qed.

Lemma sqrt_nonneg a : (0 <=? a) = true -> (0 <=? sqrt a) = true.
Proof.
  rewrite !leb_spec, sqrt_spec. change (Prim2SF 0) with (S754_zero false).
  apply SFsqrt_nonneg.
Qed.

Lemma scale_nonneg t : (0 <=? t) = true -> (0 <=? 6371 * 2 * t) = true.
Proof.
  rewrite !leb_spec, mul_spec. change (Prim2SF 0) with (S754_zero false).
  change (Prim2SF (6371 * 2)) with (S754_finite false 7004988580560896 (-39)).
  apply SFmul_nonneg.
Qed.

Lemma leb_not_nan_r x r : (r <=? x) = true -> is_nan x = false.
Proof.
  rewrite leb_spec. intros H. apply is_nan_spec. intros E.
  rewrite E in H. destruct (Prim2SF r); discriminate.
Qed.

Lemma one_sub_nonneg a : (a <=? 1) = true -> (0 <=? 1 - a) = true.
Proof.
  intros H. rewrite leb_spec in H. unfold SFleb in H.
  destruct (SFcompare (Prim2SF a) (Prim2SF 1)) as [c|] eqn:Hc; [|discriminate].
  assert (Ha : Prim2SF a <> S754_nan) by (intros E; rewrite E in Hc; discriminate).
  assert (Hc' : SFcompare (Prim2SF 1) (Prim2SF a) = Some (CompOpp c))
    by (rewrite SFcompare_antisym, Hc; reflexivity).
  pose proof (SFsub_sign _ _ _ (Prim2SF_valid 1) (Prim2SF_valid a) Hc') as S.
  assert (N : SF64sub (Prim2SF 1) (Prim2SF a) <> S754_nan)
    by (apply SFsub_not_nan; [exact I|exact Ha]).
  rewrite leb_spec, sub_spec. change (Prim2SF 0) with (S754_zero false).
  destruct (SF64sub (Prim2SF 1) (Prim2SF a)) as [s|s| |s m e];
    destruct c; cbn in *; try discriminate; try contradiction; try congruence;
    subst; reflexivity.
Qed.

Lemma sqrt_one_sub_nan a : (1 <? a) = true -> sqrt (1 - a) = nan.
Proof.
  intros H. rewrite ltb_spec in H. unfold SFltb in H.
  destruct (SFcompare (Prim2SF 1) (Prim2SF a)) as [[| |]|] eqn:Hc; try discriminate.
  pose proof (SFsub_sign _ _ _ (Prim2SF_valid 1) (Prim2SF_valid a) Hc) as S.
  apply Prim2SF_inj. rewrite sqrt_spec, sub_spec.
  change (Prim2SF nan) with S754_nan. apply SFsqrt_negative, S.
Qed.

End Binary64.

Import Binary64.

(** * Sorting by a numeric key *)

Section SortByKey.
Context {A : Type}.
Variable key : A -> float.
Local Open Scope float_scope.

Lemma sort_insert_perm x l : Permutation (sort_insert (key_diff key) x l) (x :: l).
Proof.
  induction l as [|y l IH]; cbn [sort_insert].
  - apply Permutation_refl.
  - destruct (0 <? key_diff key x y).
    + eapply perm_trans; [apply perm_skip, IH|apply perm_swap].
    + apply Permutation_refl.
Qed.

Lemma sort_perm l : Permutation (sort (key_diff key) l) l.
Proof.
  induction l as [|x l IH]; cbn [sort fold_right].
  - apply perm_nil.
  - eapply perm_trans; [apply sort_insert_perm|apply perm_skip, IH].
Qed.

Lemma sort_insert_hd x y l :
  key_le key y x -> HdRel (key_le key) y l ->
  HdRel (key_le key) y (sort_insert (key_diff key) x l).
Proof.
  intros Hyx H. destruct l as [|z l]; cbn [sort_insert].
  - constructor. exact Hyx.
  - destruct (0 <? key_diff key x z); constructor; [|exact Hyx].
    inversion H; assumption.
Qed.

Lemma sort_insert_sorted x l :
  is_number key x -> Forall (is_number key) l ->
  Sorted (key_le key) l -> Sorted (key_le key) (sort_insert (key_diff key) x l).
Proof.
  intros Hx Hl Hs. induction Hs as [|y l Hs IH Hd]; cbn [sort_insert].
  - repeat constructor.
  - inversion Hl as [|? ? Hy Hl']; subst.
    destruct (0 <? key_diff key x y) eqn:E.
    + constructor; [apply IH, Hl'|].
      apply sort_insert_hd; [|exact Hd].
      apply sub_pos_le, E.
    + constructor; [constructor; assumption|].
      constructor. unfold key_le.
      destruct (key x <=? key y) eqn:L; [reflexivity|].
      unfold key_diff in E.
      rewrite (sub_pos_of_not_le _ _ Hx Hy L) in E. discriminate.
Qed.

Lemma sort_sorted l : Forall (is_number key) l -> Sorted (key_le key) (sort (key_diff key) l).
Proof.
  induction l as [|x l IH]; intros H; cbn [sort fold_right].
  - constructor.
  - inversion H as [|? ? Hx Hl]; subst.
    apply sort_insert_sorted; [exact Hx| |apply IH, Hl].
    eapply Permutation_Forall; [apply Permutation_sym, sort_perm|exact Hl].
Qed.

Lemma sort_insert_stable d x l :
  filter (fun v => key v =? d) (sort_insert (key_diff key) x l) =
  filter (fun v => key v =? d) (x :: l).
Proof.
  induction l as [|y l IH]; cbn [sort_insert]; [reflexivity|].
  destruct (0 <? key_diff key x y) eqn:E; [|reflexivity].
  cbn [filter] in *. rewrite IH.
  destruct (key x =? d) eqn:Ex, (key y =? d) eqn:Ey; try reflexivity.
  exfalso. exact (sub_pos_not_tied _ _ _ E Ex Ey).
Qed.

Lemma sort_stable d l :
  filter (fun v => key v =? d) (sort (key_diff key) l) = filter (fun v => key v =? d) l.
Proof.
  induction l as [|x l IH]; cbn [sort fold_right]; [reflexivity|].
  rewrite sort_insert_stable. cbn [filter]. fold (sort (key_diff key) l).
  rewrite IH. reflexivity.
Qed.
End SortByKey.

Lemma Sorted_firstn {A} (R : A -> A -> Prop) n l :
  Sorted R l -> Sorted R (firstn n l).
Proof.
  revert l. induction n as [|n IH]; intros l H; cbn [firstn]; [constructor|].
  destruct l as [|x l]; [constructor|].
  apply Sorted_inv in H as [Hs Hd]. constructor; [apply IH, Hs|].
  destruct n; cbn [firstn]; [constructor|].
  destruct Hd; constructor; assumption.
Qed.

Lemma Forall_firstn {A} (P : A -> Prop) n l : Forall P l -> Forall P (firstn n l).
Proof.
  intros H. rewrite <- (firstn_skipn n l) in H. apply Forall_app in H. tauto.
Qed.

(** * The ranked volcano list *)

Section Ranking.
Context {M : JSMath}.
Local Open Scope float_scope.

Lemma within_is_number radiusKm v : within radiusKm v = true -> is_number distanceKm v.
Proof. unfold within, is_number. apply leb_not_nan_l. Qed.

(** C1. The ranked output of the report's volcano filter holds only records
    of the input list whose computed distance is at most the radius
    (boundary included); it is sorted by non-decreasing distance; it is the
    head of a stable rearrangement of the records within the radius (records
    at equal distance keep their original order); and it has at most 20
    elements and at most as many as there are records within the radius. *)
Theorem nearbyVolcanoes_ranked (volcanoData : list volcano)
  (latitude longitude radiusKm : float) :
  let inside :=
    filter (within radiusKm) (map (with_distance latitude longitude) volcanoData) in
  let out := nearbyVolcanoes volcanoData latitude longitude radiusKm in
  Forall (fun v => (distanceKm v <=? radiusKm) = true /\
                   exists r, In r volcanoData /\
                             v = with_distance latitude longitude r) out
  /\ Sorted closer_or_equal out
  /\ (exists rest,
        Sorted closer_or_equal (out ++ rest) /\
        Permutation (out ++ rest) inside /\
        forall d, filter (tied d) (out ++ rest) = filter (tied d) inside)
  /\ (List.length out <= 20)%nat
  /\ (List.length out <= List.length inside)%nat.
Proof.
  intros inside out.
  set (sorted := sort by_distance inside).
  assert (Hout : out = firstn 20 sorted) by reflexivity.
  assert (Hperm : Permutation sorted inside) by apply (sort_perm distanceKm).
  assert (Hin : Forall (fun v => within radiusKm v = true) inside).
  { apply Forall_forall. intros v Hv. apply filter_In in Hv. tauto. }
  assert (Hnum : Forall (is_number distanceKm) inside).
  { eapply Forall_impl; [|exact Hin]. apply within_is_number. }
  assert (Hsorted : Sorted closer_or_equal sorted)
    by apply (sort_sorted distanceKm _ Hnum).
  repeat split.
  - rewrite Hout. apply Forall_firstn.
    eapply Permutation_Forall; [apply Permutation_sym, Hperm|].
    apply Forall_forall. intros v Hv.
    apply filter_In in Hv as [Hv Hw]. split; [exact Hw|].
    apply in_map_iff in Hv as (r & <- & Hr). eauto.
  - rewrite Hout. apply Sorted_firstn, Hsorted.
  - exists (skipn 20 sorted). rewrite Hout, firstn_skipn.
    split; [exact Hsorted|]. split; [exact Hperm|].
    intros d. apply (sort_stable distanceKm).
  - rewrite Hout. apply firstn_le_length.
  - rewrite Hout, length_firstn, <- (Permutation_length Hperm). lia.
Qed.
End Ranking.

(** * The risk classifier *)

Lemma riskLevel_cases n :
  (10 < n /\ riskLevel n = HIGH) \/
  (3 < n <= 10 /\ riskLevel n = MODERATE) \/
  (0 < n <= 3 /\ riskLevel n = LOW) \/
  (n = 0 /\ riskLevel n = MINIMAL).
Proof.
  unfold riskLevel.
  destruct (Nat.ltb_spec 10 n); [left; split; [lia|reflexivity]|].
  destruct (Nat.ltb_spec 3 n); [right; left; split; [lia|reflexivity]|].
  destruct (Nat.ltb_spec 0 n); [right; right; left; split; [lia|reflexivity]|].
  right; right; right. split; [lia|reflexivity].
Qed.

(** C2. On every count of significant quakes the classifier returns HIGH
    exactly when the count exceeds 10, MODERATE exactly when it lies in
    (3, 10], LOW exactly when it lies in (0, 3] and MINIMAL exactly at 0;
    it is defined on every natural number and never decreases when its
    argument grows. *)
Theorem riskLevel_thresholds :
  (forall n,
     (riskLevel n = HIGH <-> 10 < n) /\
     (riskLevel n = MODERATE <-> 3 < n <= 10) /\
     (riskLevel n = LOW <-> 0 < n <= 3) /\
     (riskLevel n = MINIMAL <-> n = 0)) /\
  (forall m n, m <= n -> level_rank (riskLevel m) <= level_rank (riskLevel n)).
Proof.
  split.
  - intros n.
    destruct (riskLevel_cases n) as [[H E]|[[H E]|[[H E]|[H E]]]]; rewrite E;
      repeat split; intros; try discriminate; try lia; reflexivity.
  - intros m n Hmn.
    destruct (riskLevel_cases m) as [[Hm Em]|[[Hm Em]|[[Hm Em]|[Hm Em]]]];
      destruct (riskLevel_cases n) as [[Hn En]|[[Hn En]|[[Hn En]|[Hn En]]]];
      rewrite Em, En; cbn [level_rank]; lia.
Qed.

(** The values the specification lists. *)
Example riskLevel_samples :
  riskLevel 0 = MINIMAL /\ riskLevel 3 = LOW /\
  riskLevel 4 = MODERATE /\ riskLevel 11 = HIGH.
Proof. repeat split. Qed.

(** * The report handler *)

Section ReportFacts.
Context {M : JSMath}.

Lemma fetchJSON_failed {A} (r : Response A) :
  ok r = false -> fetchJSON r = Throw (ApiError (status r)).
Proof. unfold fetchJSON. intros ->. reflexivity. Qed.

Lemma fetchJSON_ok {A} (r : Response A) :
  ok r = true -> fetchJSON r = Ok (json r).
Proof. unfold fetchJSON. intros ->. reflexivity. Qed.

Lemma fetchJSON_cases {A} (r : Response A) :
  (ok r = true /\ fetchJSON r = Ok (json r)) \/
  (ok r = false /\ fetchJSON r = Throw (ApiError (status r))).
Proof.
  destruct (ok r) eqn:E; [left|right]; split; auto using fetchJSON_ok, fetchJSON_failed.
Qed.

(** C3. When either upstream fetch of a report answers with a non-success
    status, the report as a whole fails with the single error raised for one
    of the failed fetches; no output, partial or otherwise, is returned. *)
Theorem report_fails_as_a_whole (net : Network) (left_first : bool) (now : Date)
  (i : report_input) :
  ok (seismic_source net (earthquakeUrl now i)) = false \/
  ok (volcano_source net volcanoUrl) = false ->
  (forall out, report net left_first now i <> Ok out) /\
  exists s, report net left_first now i = Throw (ApiError s) /\
    ((ok (seismic_source net (earthquakeUrl now i)) = false /\
      s = status (seismic_source net (earthquakeUrl now i))) \/
     (ok (volcano_source net volcanoUrl) = false /\
      s = status (volcano_source net volcanoUrl))).
Proof.
  intros H.
  assert (E : exists s, report net left_first now i = Throw (ApiError s) /\
    ((ok (seismic_source net (earthquakeUrl now i)) = false /\
      s = status (seismic_source net (earthquakeUrl now i))) \/
     (ok (volcano_source net volcanoUrl) = false /\
      s = status (volcano_source net volcanoUrl)))).
  { unfold report.
    destruct (fetchJSON_cases (seismic_source net (earthquakeUrl now i)))
      as [[Oq Eq]|[Oq Eq]];
      destruct (fetchJSON_cases (volcano_source net volcanoUrl))
        as [[Ov Ev]|[Ov Ev]];
      rewrite Eq, Ev; cbn [Promise_all bind].
    - destruct H; congruence.
    - eexists; split; [reflexivity|right; auto].
    - eexists; split; [reflexivity|left; auto].
    - destruct left_first; eexists; (split; [reflexivity|]); [left|right]; auto. }
  split; [|exact E].
  destruct E as (s & E & _). intros out. rewrite E. discriminate.
Qed.

Lemma length_filter_count {A} (p : A -> bool) l : List.length (filter p l) = count p l.
Proof.
  induction l as [|x l IH]; cbn [filter count]; [reflexivity|].
  destruct (p x); cbn [List.length]; rewrite IH; reflexivity.
Qed.

(** C10. In every report that is returned, the volcano count of the risk
    block is the length of the volcano list of the same response, and the
    significant-quake count is the number of events of magnitude at least 4
    among all events the seismic source returned. *)
Theorem report_counts_agree (net : Network) (left_first : bool) (now : Date)
  (i : report_input) (out : report_output) :
  report net left_first now i = Ok out ->
  ra_nearbyVolcanoes (out_riskAssessment out) = List.length (out_nearbyVolcanoes out) /\
  ra_significantQuakes (out_riskAssessment out) =
    count (fun f => (4 <=? mag f)%float)
      (features (json (seismic_source net (earthquakeUrl now i)))).
Proof.
  unfold report.
  destruct (fetchJSON_cases (seismic_source net (earthquakeUrl now i)))
    as [[Oq Eq]|[Oq Eq]];
    destruct (fetchJSON_cases (volcano_source net volcanoUrl))
      as [[Ov Ev]|[Ov Ev]];
    rewrite Eq, Ev; cbn [Promise_all bind]; try discriminate.
  intros H. injection H as <-. cbn.
  rewrite length_map. split; [reflexivity|].
  apply length_filter_count.
Qed.
End ReportFacts.

(** * The distance calculator *)

Section Distance.
Context {M : JSMath}.
Local Open Scope float_scope.

Lemma toRad_opp x : toRad (- x) = - toRad x.
Proof. unfold toRad. rewrite mul_opp_l, div_opp_l. reflexivity. Qed.

Lemma half_angle_opp x : sin_odd -> Math_sin (toRad (- x) / 2) = - Math_sin (toRad x / 2).
Proof. intros H. rewrite toRad_opp, div_opp_l. apply H. Qed.

Lemma sin_sq_swap x y :
  sin_odd ->
  Math_sin (toRad (x - y) / 2) * Math_sin (toRad (x - y) / 2) =
  Math_sin (toRad (y - x) / 2) * Math_sin (toRad (y - x) / 2).
Proof.
  intros H. destruct (sub_swap y x) as [E|E]; rewrite E; [|reflexivity].
  rewrite half_angle_opp by exact H. apply mul_opp_opp.
Qed.

Lemma cross_term_swap p x y :
  sin_odd ->
  p * Math_sin (toRad (x - y) / 2) * Math_sin (toRad (x - y) / 2) =
  p * Math_sin (toRad (y - x) / 2) * Math_sin (toRad (y - x) / 2).
Proof.
  intros H. destruct (sub_swap y x) as [E|E]; rewrite E; [|reflexivity].
  rewrite half_angle_opp by exact H. rewrite (mul_opp_r p). apply mul_opp_opp.
Qed.

Lemma haversine_a_sym lat1 lon1 lat2 lon2 :
  sin_odd -> haversine_a lat1 lon1 lat2 lon2 = haversine_a lat2 lon2 lat1 lon1.
Proof.
  intros H. unfold haversine_a. cbv zeta.
  rewrite (sin_sq_swap lat2 lat1 H).
  rewrite (cross_term_swap _ lon2 lon1 H).
  rewrite (mul_comm (Math_cos (toRad lat1))). reflexivity.
Qed.

Lemma haversine_sym lat1 lon1 lat2 lon2 :
  sin_odd -> haversine lat1 lon1 lat2 lon2 = haversine lat2 lon2 lat1 lon1.
Proof.
  intros H. unfold haversine. cbv zeta.
  rewrite (haversine_a_sym lat1 lon1 lat2 lon2 H). reflexivity.
Qed.

Lemma range_finite lo hi x :
  is_finite lo = true -> is_finite hi = true ->
  (lo <=? x) = true -> (x <=? hi) = true -> is_finite x = true.
Proof.
  rewrite !is_finite_spec, !leb_spec.
  destruct (Prim2SF lo) as [s|s| |s m e], (Prim2SF hi) as [s'|s'| |s' m' e'];
    try contradiction; intros _ _;
    destruct (Prim2SF x) as [sx|[|]| |sx mx ex]; try destruct s; try destruct s';
    cbn; intros; try discriminate; exact I.
Qed.

Lemma toRad_finite lat :
  (-90 <=? lat) = true -> (lat <=? 90) = true -> is_finite (toRad lat) = true.
Proof.
  intros Hlo Hhi. rewrite leb_spec in Hlo, Hhi.
  change (Prim2SF (-90)) with (S754_finite true 6333186975989760 (-46)) in Hlo.
  change (Prim2SF 90) with (S754_finite false 6333186975989760 (-46)) in Hhi.
  pose proof (SFleb_range_exponent _ _ _ Hlo Hhi) as Hx.
  destruct (SFmul_no_overflow (Prim2SF lat) (Prim2SF Math_PI) (-46) (-51))
    as [Hm _]; auto using Prim2SF_valid.
  { change (Prim2SF Math_PI) with (S754_finite false 7074237752028440 (-51)).
    cbn. lia. }
  { lia. }
  apply is_finite_spec. unfold toRad. rewrite div_spec, mul_spec.
  change (Prim2SF 180) with (S754_finite false 6333186975989760 (-45)).
  apply SFdiv_no_overflow.
  - rewrite <- mul_spec. apply Prim2SF_valid.
  - exact Hm.
  - reflexivity.
  - lia.
Qed.

Lemma cos_product_finite x y :
  cos_bounded -> is_finite x = true -> is_finite y = true ->
  is_finite (Math_cos x * Math_cos y) = true.
Proof.
  intros H Hx Hy. apply is_finite_spec. rewrite mul_spec.
  pose proof (H x Hx) as Bx. pose proof (H y Hy) as By.
  rewrite leb_spec, abs_spec in Bx, By.
  change (Prim2SF 1) with (S754_finite false 4503599627370496 (-52)) in Bx, By.
  apply SFleb_abs_exponent in Bx, By.
  destruct (SFmul_no_overflow _ _ (-52) (-52) (Prim2SF_valid _) (Prim2SF_valid _) Bx By)
    as [Hm _]; [lia|exact Hm].
Qed.

Lemma vanishing_cross_term p : is_finite p = true -> 0 + p * 0 * 0 = 0.
Proof.
  intros H. apply is_finite_spec in H. apply Prim2SF_inj.
  rewrite add_spec, !mul_spec. change (Prim2SF 0) with (S754_zero false).
  destruct (Prim2SF p) as [s|s| |s m e]; try contradiction; destruct s; reflexivity.
Qed.

Lemma haversine_a_same lat lon :
  sin_zero -> cos_bounded -> valid_point lat lon -> haversine_a lat lon lat lon = 0.
Proof.
  intros Hs Hc (Hlat1 & Hlat2 & Hlon1 & Hlon2).
  assert (Flat : is_finite lat = true)
    by (apply (range_finite (-90) 90); auto).
  assert (Flon : is_finite lon = true)
    by (apply (range_finite (-180) 180); auto).
  unfold haversine_a. cbv zeta.
  rewrite (sub_diag lat Flat), (sub_diag lon Flon).
  change (toRad 0 / 2) with 0. rewrite Hs.
  change (0 * 0) with 0.
  apply vanishing_cross_term, cos_product_finite; auto using toRad_finite.
Qed.

Lemma haversine_same lat lon :
  sin_zero -> cos_bounded -> atan2_zero -> valid_point lat lon ->
  haversine lat lon lat lon = 0.
Proof.
  intros Hs Hc Ha Hv. unfold haversine. cbv zeta.
  rewrite (haversine_a_same lat lon Hs Hc Hv).
  change (Math_sqrt 0) with 0. change (Math_sqrt (1 - 0)) with 1.
  rewrite Ha. reflexivity.
Qed.
End Distance.

(** * The entries of [sampled_math]

    Each tabulated double is the one nearest to the value of the real
    function at the tabulated argument: the partial sums of the series
    enclose the real value (Stdlib's [sin_bound] and [cos_bound]) and are
    compared with the double over the rationals. *)

Section SampledValues.
Local Open Scope R_scope.

Lemma Q2R_powQ a n : Q2R (powQ a n) = Q2R a ^ n.
Proof.
  induction n as [|n IH]; cbn [powQ pow].
  - unfold Q2R. simpl. lra.
  - rewrite Q2R_mult, IH. reflexivity.
Qed.

Lemma Q2R_inject_Z z : Q2R (inject_Z z) = IZR z.
Proof. unfold Q2R. simpl. lra. Qed.

Lemma factZ_pos n : (0 < factZ n)%Z.
Proof. induction n as [|n IH]; cbn [factZ]; lia. Qed.

Lemma INR_fact n : INR (fact n) = IZR (factZ n).
Proof.
  induction n as [|n IH].
  - simpl. reflexivity.
  - change (fact (S n)) with (S n * fact n)%nat.
    rewrite mult_INR, IH. cbn [factZ]. rewrite mult_IZR, <- INR_IZR_INZ. reflexivity.
Qed.

Lemma Q2R_minus_one : Q2R (-1) = -1.
Proof. unfold Q2R. simpl. lra. Qed.

Lemma Q2R_quot a z : (0 < z)%Z -> Q2R (a / inject_Z z) = Q2R a / IZR z.
Proof.
  intros H. unfold Qdiv. rewrite Q2R_mult, Q2R_inv, Q2R_inject_Z; [reflexivity|].
  intros E. unfold Qeq in E. simpl in E. lia.
Qed.

Lemma Q2R_sin_term a i : Q2R (sin_termQ a i) = sin_term (Q2R a) i.
Proof.
  unfold sin_termQ, sin_term.
  rewrite Q2R_mult, Q2R_powQ, Q2R_minus_one, Q2R_quot by apply factZ_pos.
  rewrite Q2R_powQ, INR_fact. reflexivity.
Qed.

Lemma Q2R_cos_term a i : Q2R (cos_termQ a i) = cos_term (Q2R a) i.
Proof.
  unfold cos_termQ, cos_term.
  rewrite Q2R_mult, Q2R_powQ, Q2R_minus_one, Q2R_quot by apply factZ_pos.
  rewrite Q2R_powQ, INR_fact. reflexivity.
Qed.

Lemma Q2R_sumQ f g n :
  (forall i, Q2R (f i) = g i) -> Q2R (sumQ f n) = sum_f_R0 g n.
Proof.
  intros H. induction n as [|n IH]; cbn [sumQ sum_f_R0].
  - apply H.
  - rewrite Q2R_plus, IH, H. reflexivity.
Qed.

Lemma Q2R_sin_approx a n : Q2R (sin_approxQ a n) = sin_approx (Q2R a) n.
Proof. apply Q2R_sumQ, Q2R_sin_term. Qed.

Lemma Q2R_cos_approx a n : Q2R (cos_approxQ a n) = cos_approx (Q2R a) n.
Proof. apply Q2R_sumQ, Q2R_cos_term. Qed.

(** Enclosures of the sine and the cosine of a rational by rational sums. *)
Lemma sin_enclosure (a : Q) (n : nat) :
  (0 <= a)%Q -> (a <= 3)%Q ->
  Q2R (sin_approxQ a (2 * n + 1)) <= sin (Q2R a) <= Q2R (sin_approxQ a (2 * (n + 1))).
Proof.
  intros H0 H3. rewrite !Q2R_sin_approx. apply sin_bound.
  - apply Qle_Rle in H0. unfold Q2R at 1 in H0. simpl in H0. lra.
  - apply Qle_Rle in H3. unfold Q2R at 2 in H3. simpl in H3.
    pose proof PI2_3_2. lra.
Qed.

Lemma cos_enclosure (a : Q) (n : nat) :
  (-1 <= a)%Q -> (a <= 1)%Q ->
  Q2R (cos_approxQ a (2 * n + 1)) <= cos (Q2R a) <= Q2R (cos_approxQ a (2 * (n + 1))).
Proof.
  intros H0 H1. rewrite !Q2R_cos_approx.
  apply Qle_Rle in H0, H1. rewrite Q2R_minus_one in H0.
  unfold Q2R at 2 in H1. simpl in H1. pose proof PI2_1.
  apply cos_bound; lra.
Qed.

Lemma sampled_sin_rad8 : nearest sin rad8 sin8.
Proof.
  destruct (sin_enclosure (exact rad8) 3) as [L U]; [vm_compute; discriminate..|].
  split.
  - eapply Rlt_le_trans; [|exact L]. apply Qlt_Rlt. vm_compute. reflexivity.
  - eapply Rle_lt_trans; [exact U|]. apply Qlt_Rlt. vm_compute. reflexivity.
Qed.

Lemma sampled_cos_rad8 : nearest cos rad8 cos8.
Proof.
  destruct (cos_enclosure (exact rad8) 3) as [L U]; [vm_compute; discriminate..|].
  split.
  - eapply Rlt_le_trans; [|exact L]. apply Qlt_Rlt. vm_compute. reflexivity.
  - eapply Rle_lt_trans; [exact U|]. apply Qlt_Rlt. vm_compute. reflexivity.
Qed.

(** The sine of the double nearest to pi/2 lies within a quarter of the gap
    below 1, so it rounds to 1. *)
Lemma sampled_sin_half_pi :
  Q2R (1 - Qpower 2 (-54)) < sin (Q2R (exact half_pi)) <= 1.
Proof.
  destruct (sin_enclosure (exact half_pi) 5) as [L _]; [vm_compute; discriminate..|].
  split; [|apply SIN_bound].
  eapply Rlt_le_trans; [|exact L]. apply Qlt_Rlt. vm_compute. reflexivity.
Qed.

(** The entries at the opposite arguments follow: the sine is odd, the cosine
    even, and rounding to nearest is symmetric. *)
Lemma sampled_opposites :
  (exact (- rad8)%float == - exact rad8)%Q /\
  (exact (- sin8)%float == - exact sin8)%Q /\
  (exact (- half_pi)%float == - exact half_pi)%Q /\
  (forall x, sin (- x) = - sin x) /\ (forall x, cos (- x) = cos x).
Proof.
  repeat split; try (vm_compute; reflexivity).
  - apply sin_neg.
  - apply cos_neg.
Qed.
End SampledValues.

Section DistanceProperties.
Local Open Scope float_scope.

(** C4, as stated, fails: the source takes [Math.sqrt(1 - a)] of the computed
    [a] without clamping it.  For the valid antipodal points (8, 0) and
    (-8, 180) round-off makes [a] = 1.0000000000000002, the inner square root
    is NaN and so is the distance. *)
Lemma haversine_antipodal_nan :
  valid_point 8 0 /\ valid_point (-8) 180 /\
  (1 <? @haversine_a sampled_math 8 0 (-8) 180) = true /\
  is_nan (Math_sqrt (1 - @haversine_a sampled_math 8 0 (-8) 180)) = true /\
  is_nan (@haversine sampled_math 8 0 (-8) 180) = true.
Proof. repeat split. Qed.

(** C4, amended.  The distance calculator applies no clamp.  Whenever the
    computed [a] lies in [0, 1] both square roots are taken of non-negative
    arguments and the distance is a number, at least 0; whenever round-off
    pushes [a] above 1 the inner square root, and with it the returned
    distance, is NaN (a value, not an exception). *)
Theorem haversine_unclamped {M : JSMath} (lat1 lon1 lat2 lon2 : float) :
  atan2_nonneg -> atan2_nan ->
  let a := haversine_a lat1 lon1 lat2 lon2 in
  ((0 <=? a) = true -> (a <=? 1) = true ->
   (0 <=? Math_sqrt a) = true /\
   (0 <=? 1 - a) = true /\
   (0 <=? Math_sqrt (1 - a)) = true /\
   (0 <=? haversine lat1 lon1 lat2 lon2) = true) /\
  ((1 <? a) = true ->
   Math_sqrt (1 - a) = nan /\ haversine lat1 lon1 lat2 lon2 = nan).
Proof.
  intros Hpos Hnan a. split.
  - intros H0 H1.
    pose proof (one_sub_nonneg a H1) as H2.
    pose proof (sqrt_nonneg a H0) as S1.
    pose proof (sqrt_nonneg (1 - a) H2) as S2.
    repeat split; try assumption.
    unfold haversine. cbv zeta. fold a.
    apply scale_nonneg, Hpos; assumption.
  - intros H. pose proof (sqrt_one_sub_nan a H) as E. split; [exact E|].
    unfold haversine. cbv zeta. fold a. unfold Math_sqrt in *. rewrite E, Hnan.
    reflexivity.
Qed.

Lemma haversine_unclamped_witness :
  let a := @haversine_a sampled_math 8 0 (-8) 180 in
  ((0 <=? a) = true -> (a <=? 1) = true ->
   (0 <=? Math_sqrt a) = true /\
   (0 <=? 1 - a) = true /\
   (0 <=? Math_sqrt (1 - a)) = true /\
   (0 <=? @haversine sampled_math 8 0 (-8) 180) = true) /\
  ((1 <? a) = true ->
   Math_sqrt (1 - a) = nan /\ @haversine sampled_math 8 0 (-8) 180 = nan).
Proof.
  apply (@haversine_unclamped sampled_math 8 0 (-8) 180).
  - intros y x Hy Hx. cbn. rewrite (leb_not_nan_r _ _ Hx). exact Hy.
  - intros y. reflexivity.
Defined.

(** C8, as stated, fails on the comparison [==]: at the antipodal points of
    C4 both distances are NaN, and NaN is not [==] to itself. *)
Lemma haversine_antipodal_not_equal :
  valid_point 8 0 /\ valid_point (-8) 180 /\
  (@haversine sampled_math 8 0 (-8) 180 =? @haversine sampled_math (-8) 180 8 0) = false.
Proof. repeat split. Qed.

(** C8, amended.  With a math library whose sine is odd and exact at zero,
    whose cosine stays within [-1, 1] and whose [atan2(+0, 1)] is [+0]: the
    distance from a valid point to itself is [== 0]; the distances between
    two valid points, taken in either order, are the same value, hence [==]
    whenever that value is a number. *)
Theorem haversine_zero_and_symmetric {M : JSMath} (lat1 lon1 lat2 lon2 : float) :
  sin_zero -> sin_odd -> cos_bounded -> atan2_zero ->
  valid_point lat1 lon1 -> valid_point lat2 lon2 ->
  (haversine lat1 lon1 lat1 lon1 =? 0) = true /\
  haversine lat1 lon1 lat2 lon2 = haversine lat2 lon2 lat1 lon1 /\
  (is_nan (haversine lat1 lon1 lat2 lon2) = false ->
   (haversine lat1 lon1 lat2 lon2 =? haversine lat2 lon2 lat1 lon1) = true).
Proof.
  intros Hs Ho Hc Ha V1 V2. split; [|split].
  - rewrite (haversine_same lat1 lon1 Hs Hc Ha V1). reflexivity.
  - apply haversine_sym, Ho.
  - rewrite <- (haversine_sym lat1 lon1 lat2 lon2 Ho).
    unfold is_nan. intros H. apply negb_false_iff in H. exact H.
Qed.

Lemma haversine_zero_and_symmetric_witness :
  (@haversine first_order_math 35.5 139.75 35.5 139.75 =? 0) = true /\
  @haversine first_order_math 35.5 139.75 35.25 138.75 =
    @haversine first_order_math 35.25 138.75 35.5 139.75 /\
  (is_nan (@haversine first_order_math 35.5 139.75 35.25 138.75) = false ->
   (@haversine first_order_math 35.5 139.75 35.25 138.75 =?
    @haversine first_order_math 35.25 138.75 35.5 139.75) = true).
Proof.
  apply (@haversine_zero_and_symmetric first_order_math 35.5 139.75 35.25 138.75).
  - reflexivity.
  - intros x. reflexivity.
  - intros x _. reflexivity.
  - reflexivity.
  - repeat split.
  - repeat split.
Defined.
End DistanceProperties.

(** * The seismic queries *)

Section QueryProperties.
Local Open Scope string_scope.
Local Open Scope float_scope.

(** C5, as stated, fails for the lookup by id: its query carries the event
    id and the format only, neither a start time nor an ordering key, and the
    operation has no lookback window. *)
Lemma lookup_query_has_no_window :
  seismic_query (new_Date 1700000000000) (OpLookup "us6000s5e4") =
    [Lit "https://earthquake.usgs.gov/fdsnws/event/1/query?eventid=";
     Str "us6000s5e4"; Lit "&format=geojson"] /\
  value_after "starttime=" (seismic_query (new_Date 1700000000000) (OpLookup "us6000s5e4"))
    = None /\
  mentions "starttime" (seismic_query (new_Date 1700000000000) (OpLookup "us6000s5e4"))
    = false /\
  mentions "orderby" (seismic_query (new_Date 1700000000000) (OpLookup "us6000s5e4"))
    = false /\
  lookback_ms (OpLookup "us6000s5e4") = None.
Proof. repeat split. Qed.

Lemma search_url_head now i :
  exists tail,
    search_url now i =
    ([Lit (query_base ++ "format=geojson&starttime=")%string;
      Iso (new_Date (getTime now - search_days i * 24 * 60 * 60 * 1000));
      Lit "&minmagnitude="; Num (search_minMagnitude i);
      Lit "&limit="; Num (search_limit i); Lit "&orderby=time"] ++ tail)%list.
Proof.
  unfold search_url. cbv zeta.
  destruct (search_latitude i), (search_longitude i), (search_maxMagnitude i);
    rewrite <- ?app_assoc; eexists; try reflexivity.
  all: rewrite app_nil_r; reflexivity.
Qed.

Lemma lookup_url_mentions (eventId key : string) :
  includes (query_base ++ "eventid=") key = false ->
  includes "&format=geojson" key = false ->
  mentions key (lookup_url eventId) = includes eventId key.
Proof.
  intros H1 H2. unfold mentions, lookup_url, Str. cbn [existsb].
  rewrite H1, H2, !orb_false_r. reflexivity.
Qed.

(** C5, amended.  Every seismic query built by the overview, the search, the
    top list and the report includes a start time equal to now minus the
    lookback window of the operation and an ordering key.  The lookup by id
    has no lookback window and its handler interpolates no value after a
    [starttime=] key; its query is the endpoint with [eventid=], the id as
    supplied and [&format=geojson], so that [starttime=] or an ordering key
    occurs in it exactly when it occurs in the id itself. *)
Theorem seismic_queries_start_and_order (now : Date)
  (s : search_input) (t : top_input) (r : report_input) (eventId : string) :
  Forall (fun op =>
            exists w, lookback_ms op = Some w /\
                      starts_at now w (seismic_query now op) /\
                      has_ordering_key (seismic_query now op))
    [OpOverview; OpSearch s; OpTop t; OpReport r] /\
  (lookback_ms (OpLookup eventId) = None /\
   seismic_query now (OpLookup eventId) =
     [Lit (query_base ++ "eventid="); Str eventId; Lit "&format=geojson"] /\
   value_after "starttime=" (seismic_query now (OpLookup eventId)) = None /\
   mentions "starttime=" (seismic_query now (OpLookup eventId)) =
     includes eventId "starttime=" /\
   (has_ordering_key (seismic_query now (OpLookup eventId)) <->
    includes eventId "&orderby=" = true)).
Proof.
  split.
  - repeat constructor; eexists; (split; [reflexivity|]); split;
      try reflexivity.
    + destruct (search_url_head now s) as [tail E].
      unfold starts_at. cbn [seismic_query]. rewrite E. reflexivity.
    + destruct (search_url_head now s) as [tail E].
      unfold has_ordering_key. cbn [seismic_query]. rewrite E. reflexivity.
    + unfold starts_at. cbn [seismic_query]. unfold top_url.
      destruct (top_period t); reflexivity.
  - split; [reflexivity|]. split; [reflexivity|]. split; [|split].
    + reflexivity.
    + cbn [seismic_query]. apply lookup_url_mentions; reflexivity.
    + unfold has_ordering_key. cbn [seismic_query].
      rewrite lookup_url_mentions by reflexivity. reflexivity.
Qed.

(** C6.  A search in which latitude or longitude is missing sends no spatial
    parameter at all; the spatial filter (latitude, longitude and radius) is
    attached exactly when both are supplied. *)
Theorem search_spatial_filter_both_or_neither (now : Date) (i : search_input) :
  match search_latitude i, search_longitude i with
  | Some latitude, Some longitude =>
      Forall (fun k => mentions k (search_url now i) = true) spatial_keys /\
      value_after "&latitude=" (search_url now i) = Some (Num latitude) /\
      value_after "&longitude=" (search_url now i) = Some (Num longitude) /\
      value_after "&maxradiuskm=" (search_url now i) = Some (Num (search_radiusKm i))
  | _, _ =>
      Forall (fun k => mentions k (search_url now i) = false) spatial_keys /\
      value_after "&latitude=" (search_url now i) = None /\
      value_after "&longitude=" (search_url now i) = None /\
      value_after "&maxradiuskm=" (search_url now i) = None
  end.
Proof.
  unfold search_url. cbv zeta.
  destruct (search_latitude i), (search_longitude i), (search_maxMagnitude i);
    repeat split; repeat constructor.
Qed.
End QueryProperties.

(** * Volcano search *)

Section VolcanoSearchFacts.
Local Open Scope string_scope.
Variable toLowerCase : string -> string.

Lemma lower_includes_true field q :
  lower_includes toLowerCase field q = Ok true -> contains_ci toLowerCase field q.
Proof.
  destruct field; cbn; try discriminate.
  intros H. injection H as H. eexists. eauto.
Qed.

Lemma contains_ci_not_nullish field q : contains_ci toLowerCase field q -> ~ nullish field.
Proof. intros (s & -> & _) [H|H]; discriminate. Qed.

Lemma lower_includes_total field q :
  string_or_nullish field ->
  lower_includes toLowerCase field q = Ok (field_test toLowerCase field q).
Proof. intros [[-> | ->]|[s ->]]; reflexivity. Qed.

Lemma filterM_inv {A} (f : A -> outcome bool) a a' :
  filterM f a = Ok a' -> forall v, In v a' -> In v a /\ f v = Ok true.
Proof.
  revert a'. induction a as [|x rest IH]; cbn [filterM]; intros a' H v Hv.
  - injection H as <-. contradiction.
  - destruct (f x) as [keep|e] eqn:Ex; cbn [bind] in H; [|discriminate].
    destruct (filterM f rest) as [rest'|e] eqn:Er; cbn [bind] in H; [|discriminate].
    injection H as <-. specialize (IH rest' eq_refl v).
    destruct keep.
    + destruct Hv as [<- | Hv]; [split; [left; reflexivity|exact Ex]|].
      destruct (IH Hv). split; [right|]; assumption.
    + destruct (IH Hv). split; [right|]; assumption.
Qed.

Lemma filterM_total {A} (f : A -> outcome bool) (g : A -> bool) a :
  Forall (fun v => f v = Ok (g v)) a -> filterM f a = Ok (filter g a).
Proof.
  induction 1 as [|x rest Hx _ IH]; cbn [filterM filter]; [reflexivity|].
  rewrite Hx, IH. cbn [bind]. destruct (g x); reflexivity.
Qed.

Lemma filter_by_inv field q s a a' :
  q = Some s -> truthy q = true -> filter_by toLowerCase field q a = Ok a' ->
  forall v, In v a' -> In v a /\ contains_ci toLowerCase (field v) s.
Proof.
  intros -> T H v Hv. unfold filter_by in H. rewrite T in H.
  destruct (filterM_inv _ _ _ H v Hv) as [Hin Ht].
  split; [exact Hin|apply lower_includes_true, Ht].
Qed.

Lemma filter_by_sub field q a a' :
  filter_by toLowerCase field q a = Ok a' -> forall v, In v a' -> In v a.
Proof.
  unfold filter_by. destruct q as [s|]; [destruct (truthy (Some s))|].
  - intros H v Hv. apply (filterM_inv _ _ _ H v Hv).
  - intros H. injection H as <-. auto.
  - intros H. injection H as <-. auto.
Qed.

Lemma filter_by_total field q a :
  Forall (fun v => string_or_nullish (field v)) a ->
  exists a', filter_by toLowerCase field q a = Ok a'.
Proof.
  intros H. unfold filter_by. destruct q as [s|]; [destruct (truthy (Some s))|]; eauto.
  eexists. apply (filterM_total _ (fun v => field_test toLowerCase (field v) s)).
  eapply Forall_impl; [|exact H]. intros v Hv. apply lower_includes_total, Hv.
Qed.

Lemma slice_sub {A} n (l : list A) v : In v (slice 0 n l) -> In v l.
Proof.
  unfold slice. rewrite Nat.sub_0_r. cbn [skipn]. intros H.
  rewrite <- (firstn_skipn n l). apply in_or_app. left. exact H.
Qed.

(** Every record of a returned page is the image of a record that passed
    both filters. *)
Lemma volcanoSearch_inv net now i out :
  volcanoSearch toLowerCase net now i = Ok out ->
  exists data filtered1 filtered2,
    fetchJSON (volcano_source net volcanoUrl) = Ok data /\
    filter_by toLowerCase country (vs_country i) data = Ok filtered1 /\
    filter_by toLowerCase vName (vs_name i) filtered1 = Ok filtered2 /\
    forall r, In r (vs_volcanoes out) ->
      exists v, In v filtered2 /\ fv_country r = country v /\ fv_name r = vName v.
Proof.
  unfold volcanoSearch. intros H.
  destruct (fetchJSON (volcano_source net volcanoUrl)) as [data|e];
    cbn [bind] in H; [|discriminate].
  destruct (filter_by toLowerCase country (vs_country i) data) as [f1|e] eqn:E1;
    cbn [bind] in H; [|discriminate].
  destruct (filter_by toLowerCase vName (vs_name i) f1) as [f2|e] eqn:E2;
    cbn [bind] in H; [|discriminate].
  injection H as <-. exists data, f1, f2.
  split; [reflexivity|]. split; [exact E1|]. split; [exact E2|].
  cbn [vs_volcanoes]. intros r Hr. apply in_map_iff in Hr as (v & <- & Hv).
  exists v. split; [eapply slice_sub, Hv|split; reflexivity].
Qed.

(** C7, amended.  For every volcano search with both a country and a name
    filter supplied and non-empty, every returned record matches both
    predicates: its country field contains the country filter and its name
    field contains the name filter, both compared in lower case. *)
Theorem volcanoSearch_matches_both (net : Network) (now : Date)
  (i : volcanoSearch_input) (c n : string) (out : volcanoSearch_output) :
  vs_country i = Some c -> vs_name i = Some n ->
  truthy (vs_country i) = true -> truthy (vs_name i) = true ->
  volcanoSearch toLowerCase net now i = Ok out ->
  Forall (fun r => contains_ci toLowerCase (fv_country r) c /\
                   contains_ci toLowerCase (fv_name r) n)
    (vs_volcanoes out).
Proof.
  intros Hc Hn Tc Tn H.
  destruct (volcanoSearch_inv net now i out H) as (data & f1 & f2 & _ & E1 & E2 & Hout).
  apply Forall_forall. intros r Hr.
  destruct (Hout r Hr) as (v & Hv & -> & ->).
  destruct (filter_by_inv vName _ n f1 f2 Hn Tn E2 v Hv) as [Hv1 Mn].
  destruct (filter_by_inv country _ c data f1 Hc Tc E1 v Hv1) as [_ Mc].
  split; assumption.
Qed.

(** C9, amended.  When the volcano list was fetched and every record's
    country and name is a string, null or missing, the search returns a
    result: an absent field never makes it fail.  With a non-empty country
    (respectively name) filter no returned record has a null or missing
    country (respectively name). *)
Theorem volcanoSearch_tolerates_missing_fields (net : Network) (now : Date)
  (i : volcanoSearch_input) :
  ok (volcano_source net volcanoUrl) = true ->
  Forall (fun v => string_or_nullish (country v) /\ string_or_nullish (vName v))
    (json (volcano_source net volcanoUrl)) ->
  exists out,
    volcanoSearch toLowerCase net now i = Ok out /\
    (truthy (vs_country i) = true ->
     Forall (fun r => ~ nullish (fv_country r)) (vs_volcanoes out)) /\
    (truthy (vs_name i) = true ->
     Forall (fun r => ~ nullish (fv_name r)) (vs_volcanoes out)).
Proof.
  intros Hok Hdata.
  assert (Hc : Forall (fun v => string_or_nullish (country v))
                 (json (volcano_source net volcanoUrl)))
    by (eapply Forall_impl; [|exact Hdata]; intros v [? _]; assumption).
  destruct (filter_by_total country (vs_country i) _ Hc) as [f1 E1].
  assert (Hn : Forall (fun v => string_or_nullish (vName v)) f1).
  { apply Forall_forall. intros v Hv.
    apply (filter_by_sub _ _ _ _ E1) in Hv.
    rewrite Forall_forall in Hdata. apply Hdata, Hv. }
  destruct (filter_by_total vName (vs_name i) _ Hn) as [f2 E2].
  assert (E : exists out, volcanoSearch toLowerCase net now i = Ok out).
  { unfold volcanoSearch. rewrite (fetchJSON_ok _ Hok). cbn [bind].
    rewrite E1. cbn [bind]. rewrite E2. cbn [bind]. eexists. reflexivity. }
  destruct E as [out E]. exists out. split; [exact E|].
  destruct (volcanoSearch_inv net now i out E)
    as (data & g1 & g2 & Ed & G1 & G2 & Hout).
  split; intros T; apply Forall_forall; intros r Hr;
    destruct (Hout r Hr) as (v & Hv & Rc & Rn); rewrite ?Rc, ?Rn.
  - destruct (vs_country i) as [c|] eqn:Ec; [|discriminate].
    apply (filter_by_sub _ _ _ _ G2) in Hv.
    destruct (filter_by_inv country _ c data g1 eq_refl T G1 v Hv) as [_ Mc].
    eapply contains_ci_not_nullish, Mc.
  - destruct (vs_name i) as [n|] eqn:En; [|discriminate].
    destruct (filter_by_inv vName _ n g1 g2 eq_refl T G2 v Hv) as [_ Mn].
    eapply contains_ci_not_nullish, Mn.
Qed.
End VolcanoSearchFacts.

Section VolcanoSearchSamples.
Local Open Scope string_scope.

(** C7, as stated, fails when a supplied filter is the empty string: the
    handler tests [if (country)], the empty string is falsy, no country
    filter runs, and a record without a country is returned although its
    country field does not contain the filter. *)
Lemma empty_country_filter_is_skipped :
  exists out,
    volcanoSearch ascii_toLowerCase (sample_network true true [] [unnamed_land])
      sample_now {| vs_country := Some ""; vs_name := Some "fuji"; vs_limit := 20 |}
    = Ok out /\
    map fv_name (vs_volcanoes out) = [JString "Fuji"] /\
    map fv_country (vs_volcanoes out) = [JNull] /\
    lower_includes ascii_toLowerCase JNull "" = Ok false.
Proof. eexists. repeat split. Qed.

Lemma volcanoSearch_matches_both_witness :
  exists out,
    volcanoSearch ascii_toLowerCase
      (sample_network true true [] [merapi; fuji; unnamed_land])
      sample_now {| vs_country := Some "JAP"; vs_name := Some "fu"; vs_limit := 20 |}
    = Ok out /\
    map fv_name (vs_volcanoes out) = [JString "Fuji"] /\
    Forall (fun r => contains_ci ascii_toLowerCase (fv_country r) "JAP" /\
                     contains_ci ascii_toLowerCase (fv_name r) "fu")
      (vs_volcanoes out).
Proof.
  eexists. split; [reflexivity|]. split; [reflexivity|].
  apply (volcanoSearch_matches_both ascii_toLowerCase
           (sample_network true true [] [merapi; fuji; unnamed_land]) sample_now
           {| vs_country := Some "JAP"; vs_name := Some "fu"; vs_limit := 20 |}
           "JAP" "fu"); reflexivity.
Defined.

(** C9, as stated, fails for an empty country filter: it is supplied, yet the
    record without a country is returned, not excluded. *)
Lemma empty_filter_keeps_missing_country :
  exists out,
    volcanoSearch ascii_toLowerCase
      (sample_network true true [] [unnamed_land; merapi])
      sample_now {| vs_country := Some ""; vs_name := None; vs_limit := 20 |}
    = Ok out /\
    vs_totalMatches out = 2 /\
    map fv_country (vs_volcanoes out) = [JNull; JString "Indonesia"].
Proof. eexists. repeat split. Qed.

Lemma volcanoSearch_tolerates_missing_fields_witness :
  exists out,
    volcanoSearch ascii_toLowerCase
      (sample_network true true [] [unnamed_land; merapi; fuji])
      sample_now {| vs_country := Some "japan"; vs_name := None; vs_limit := 20 |}
    = Ok out /\
    (truthy (Some "japan") = true ->
     Forall (fun r => ~ nullish (fv_country r)) (vs_volcanoes out)) /\
    (truthy None = true ->
     Forall (fun r => ~ nullish (fv_name r)) (vs_volcanoes out)).
Proof.
  apply (volcanoSearch_tolerates_missing_fields ascii_toLowerCase
           (sample_network true true [] [unnamed_land; merapi; fuji]) sample_now
           {| vs_country := Some "japan"; vs_name := None; vs_limit := 20 |}).
  - reflexivity.
  - repeat constructor; eexists; reflexivity.
Defined.
End VolcanoSearchSamples.

(** * Sample runs of the report *)

Section ReportSamples.
Local Open Scope float_scope.

(** Records at the same distance keep their order; the far one is dropped. *)
Example nearbyVolcanoes_sample :
  map record (@nearbyVolcanoes first_order_math [merapi; unnamed_land; fuji; hakone]
                35.5 139.75 200)
  = [hakone; unnamed_land; fuji].
Proof. reflexivity. Qed.

Lemma report_fails_as_a_whole_witness :
  (forall out,
     @report first_order_math (sample_network true false sample_quakes [fuji; merapi])
       true sample_now tokyo <> Ok out) /\
  exists s,
    @report first_order_math (sample_network true false sample_quakes [fuji; merapi])
      true sample_now tokyo = Throw (ApiError s) /\
    ((true = false /\ s = 200%Z) \/ (false = false /\ s = 502%Z)).
Proof.
  apply (@report_fails_as_a_whole first_order_math
           (sample_network true false sample_quakes [fuji; merapi]) true sample_now tokyo).
  right. reflexivity.
Defined.

Lemma report_counts_agree_witness :
  exists out,
    @report first_order_math (sample_network true true sample_quakes [fuji; merapi])
      true sample_now tokyo = Ok out /\
    ra_level (out_riskAssessment out) = LOW /\
    ra_nearbyVolcanoes (out_riskAssessment out) = 1%nat /\
    (ra_nearbyVolcanoes (out_riskAssessment out) = List.length (out_nearbyVolcanoes out) /\
     ra_significantQuakes (out_riskAssessment out) =
       count (fun f => 4 <=? mag f) sample_quakes).
Proof.
  eexists. split; [reflexivity|]. split; [reflexivity|]. split; [reflexivity|].
  apply (@report_counts_agree first_order_math
           (sample_network true true sample_quakes [fuji; merapi]) true sample_now tokyo).
  reflexivity.
Defined.
End ReportSamples.

(** * Further properties of the volcano search *)

Section VolcanoSearchPages.
Local Open Scope string_scope.
Variable toLowerCase : string -> string.

Lemma filterM_filter {A} (f : A -> outcome bool) a a' :
  filterM f a = Ok a' ->
  a' = filter (fun v => match f v with Ok b => b | Throw _ => false end) a.
Proof.
  revert a'. induction a as [|x rest IH]; cbn [filterM filter]; intros a' H.
  - injection H as <-. reflexivity.
  - destruct (f x) as [keep|e]; cbn [bind] in H; [|discriminate].
    destruct (filterM f rest) as [rest'|e]; cbn [bind] in H; [|discriminate].
    injection H as <-. rewrite (IH rest' eq_refl). reflexivity.
Qed.

Lemma filterM_tested {A} (f : A -> outcome bool) a a' :
  filterM f a = Ok a' -> Forall (fun v => exists b, f v = Ok b) a.
Proof.
  revert a'. induction a as [|x rest IH]; cbn [filterM]; intros a' H; constructor.
  - destruct (f x) as [keep|e]; [eauto|discriminate].
  - destruct (f x) as [keep|e]; cbn [bind] in H; [|discriminate].
    destruct (filterM f rest) as [rest'|e]; cbn [bind] in H; [|discriminate].
    eapply IH. reflexivity.
Qed.

Lemma filterM_throws {A} (f : A -> outcome bool) a e :
  filterM f a = Throw e -> exists v, In v a /\ f v = Throw e.
Proof.
  induction a as [|x rest IH]; cbn [filterM]; intros H; [discriminate|].
  destruct (f x) as [keep|e'] eqn:Ex; cbn [bind] in H.
  - destruct (filterM f rest) as [rest'|e'']; cbn [bind] in H; [discriminate|].
    injection H as ->. destruct (IH eq_refl) as (v & Hv & Hf).
    exists v. split; [right; exact Hv|exact Hf].
  - injection H as ->. exists x. split; [left; reflexivity|exact Ex].
Qed.

Lemma filterM_first_throw {A} (f : A -> outcome bool) a :
  (forall v e, In v a -> f v = Throw e -> e = TypeError) ->
  (exists v, In v a /\ f v = Throw TypeError) ->
  filterM f a = Throw TypeError.
Proof.
  intros Hall (v & Hv & Hf).
  induction a as [|x rest IH]; [contradiction|]. cbn [filterM].
  destruct (f x) as [keep|e] eqn:Ex; cbn [bind].
  - destruct Hv as [<- | Hv]; [congruence|].
    rewrite IH; [reflexivity| |exact Hv].
    intros w e Hw. apply Hall. right. exact Hw.
  - rewrite (Hall x e (or_introl eq_refl) Ex). reflexivity.
Qed.

Lemma lower_includes_value field q b :
  lower_includes toLowerCase field q = Ok b -> b = field_test toLowerCase field q.
Proof. destruct field; cbn; intros H; try discriminate; injection H as <-; reflexivity. Qed.

Lemma lower_includes_error field q e :
  lower_includes toLowerCase field q = Throw e ->
  e = TypeError /\ lacks_toLowerCase field.
Proof.
  destruct field; cbn; intros H; try discriminate; injection H as <-;
    (split; [reflexivity|]); [left|right]; eauto.
Qed.

Lemma lower_includes_lacking field q :
  lacks_toLowerCase field -> lower_includes toLowerCase field q = Throw TypeError.
Proof. intros [[b ->]|[x ->]]; reflexivity. Qed.

(** A filter stage that returns keeps exactly the records its test accepts. *)
Lemma filter_by_filter field q a a' :
  filter_by toLowerCase field q a = Ok a' ->
  a' = filter (fun v => active_test toLowerCase q (field v)) a.
Proof.
  unfold filter_by, active_test. destruct q as [s|].
  - destruct (truthy (Some s)).
    + intros H. pose proof (filterM_tested _ _ _ H) as T.
      rewrite (filterM_filter _ _ _ H). apply filter_ext_in.
      intros v Hv. rewrite Forall_forall in T. destruct (T v Hv) as [b Hb].
      rewrite Hb. apply (lower_includes_value _ _ _ Hb).
    + intros H. injection H as <-. clear. induction a as [|x a IH]; cbn; congruence.
  - intros H. injection H as <-. clear. induction a as [|x a IH]; cbn; congruence.
Qed.

Lemma filter_twice {A} (p q : A -> bool) l :
  filter q (filter p l) = filter (fun v => p v && q v) l.
Proof.
  induction l as [|x l IH]; cbn [filter]; [reflexivity|].
  destruct (p x); cbn [filter andb]; [destruct (q x)|]; rewrite IH; reflexivity.
Qed.

Lemma volcanoSearch_stages net now i out :
  volcanoSearch toLowerCase net now i = Ok out ->
  ok (volcano_source net volcanoUrl) = true /\
  exists filtered,
    filtered = filter (selected toLowerCase i) (json (volcano_source net volcanoUrl)) /\
    vs_totalMatches out = List.length filtered /\
    vs_returned out = List.length (firstn (vs_limit i) filtered) /\
    vs_volcanoes out = map found (firstn (vs_limit i) filtered).
Proof.
  unfold volcanoSearch, fetchJSON. intros H.
  destruct (ok (volcano_source net volcanoUrl)); cbn [negb bind] in H; [|discriminate].
  split; [reflexivity|].
  destruct (filter_by toLowerCase country (vs_country i) _) as [f1|e] eqn:E1;
    cbn [bind] in H; [|discriminate].
  destruct (filter_by toLowerCase vName (vs_name i) f1) as [f2|e] eqn:E2;
    cbn [bind] in H; [|discriminate].
  injection H as <-. exists f2.
  apply filter_by_filter in E1, E2. subst f1.
  rewrite filter_twice in E2.
  unfold slice. rewrite Nat.sub_0_r. cbn [skipn vs_totalMatches vs_returned vs_volcanoes].
  repeat split. exact E2.
Qed.

(** X1. A search that returns reports as [totalMatches] the number of records
    the filters select, returns the first [limit] of them, and [returned] is
    the smaller of [limit] and [totalMatches] and the length of the list. *)
Theorem volcanoSearch_page_size net now i out :
  volcanoSearch toLowerCase net now i = Ok out ->
  vs_returned out = Nat.min (vs_limit i) (vs_totalMatches out) /\
  vs_returned out = List.length (vs_volcanoes out) /\
  vs_totalMatches out =
    count (selected toLowerCase i) (json (volcano_source net volcanoUrl)).
Proof.
  intros H. destruct (volcanoSearch_stages net now i out H)
    as (_ & filtered & Ef & Et & Er & Ev).
  rewrite Er, Et, Ev, length_map, length_firstn. repeat split.
  rewrite Ef. apply length_filter_count.
Qed.

(** X2. The records a search returns are the first [limit] records of the
    upstream list that pass both active filters, in upstream order: the two
    filter stages act as one conjunctive filter. *)
Theorem volcanoSearch_selects net now i out :
  volcanoSearch toLowerCase net now i = Ok out ->
  vs_volcanoes out =
    map found (firstn (vs_limit i)
                 (filter (selected toLowerCase i) (json (volcano_source net volcanoUrl)))).
Proof.
  intros H. destruct (volcanoSearch_stages net now i out H)
    as (_ & filtered & -> & _ & _ & Ev). exact Ev.
Qed.

Lemma filter_by_throws field q a e :
  filter_by toLowerCase field q a = Throw e ->
  e = TypeError /\ truthy q = true /\ exists v, In v a /\ lacks_toLowerCase (field v).
Proof.
  unfold filter_by. destruct q as [s|]; [|discriminate].
  destruct (truthy (Some s)) eqn:T; [|discriminate].
  intros H. destruct (filterM_throws _ _ _ H) as (v & Hv & Hf).
  destruct (lower_includes_error _ _ _ Hf) as [-> L]. eauto.
Qed.

Lemma filter_by_lacking field q a :
  truthy q = true -> (exists v, In v a /\ lacks_toLowerCase (field v)) ->
  filter_by toLowerCase field q a = Throw TypeError.
Proof.
  intros T (v & Hv & L). unfold filter_by. rewrite T.
  destruct q as [s|]; [|discriminate].
  apply filterM_first_throw.
  - intros w e _ Hw. apply (lower_includes_error _ _ _ Hw).
  - exists v. split; [exact Hv|apply lower_includes_lacking, L].
Qed.

(** X3. With the volcano list fetched and a non-empty country filter, one
    upstream record whose country is a number or a boolean makes the whole
    search fail with a TypeError, whatever the other records are. *)
Theorem volcanoSearch_rejects_untyped_country net now i v :
  ok (volcano_source net volcanoUrl) = true ->
  truthy (vs_country i) = true ->
  In v (json (volcano_source net volcanoUrl)) ->
  lacks_toLowerCase (country v) ->
  volcanoSearch toLowerCase net now i = Throw TypeError.
Proof.
  intros Hok T Hv L. unfold volcanoSearch.
  rewrite (fetchJSON_ok _ Hok). cbn [bind].
  rewrite (filter_by_lacking country _ _ T); [reflexivity|eauto].
Qed.

(** X4. A search fails in two ways only: with the API error of the fetch
    when the response is not ok, and with a TypeError when the list was
    fetched and an active filter met a field that is a number or a
    boolean. *)
Theorem volcanoSearch_failure_causes net now i e :
  volcanoSearch toLowerCase net now i = Throw e ->
  (ok (volcano_source net volcanoUrl) = false /\
   e = ApiError (status (volcano_source net volcanoUrl))) \/
  (ok (volcano_source net volcanoUrl) = true /\ e = TypeError /\
   exists v, In v (json (volcano_source net volcanoUrl)) /\
     ((truthy (vs_country i) = true /\ lacks_toLowerCase (country v)) \/
      (truthy (vs_name i) = true /\ lacks_toLowerCase (vName v)))).
Proof.
  unfold volcanoSearch. intros H.
  destruct (fetchJSON_cases (volcano_source net volcanoUrl)) as [[Hok E]|[Hok E]];
    rewrite E in H; cbn [bind] in H.
  - right. split; [exact Hok|].
    destruct (filter_by toLowerCase country (vs_country i) _) as [f1|e1] eqn:E1;
      cbn [bind] in H.
    + destruct (filter_by toLowerCase vName (vs_name i) f1) as [f2|e2] eqn:E2;
        cbn [bind] in H; [discriminate|].
      injection H as ->.
      destruct (filter_by_throws _ _ _ _ E2) as (-> & T & v & Hv & L).
      split; [reflexivity|]. exists v. split; [|right; auto].
      apply filter_by_filter in E1. subst f1. apply filter_In in Hv. tauto.
    + injection H as ->.
      destruct (filter_by_throws _ _ _ _ E1) as (-> & T & v & Hv & L).
      split; [reflexivity|]. exists v. split; [exact Hv|left; auto].
  - left. injection H as <-. auto.
Qed.

Lemma filterM_ext {A} (f g : A -> outcome bool) a :
  (forall v, f v = g v) -> filterM f a = filterM g a.
Proof.
  intros H. induction a as [|x rest IH]; cbn [filterM]; [reflexivity|].
  rewrite H, IH. reflexivity.
Qed.

Lemma filter_by_same_filter field q1 q2 a :
  same_filter toLowerCase q1 q2 ->
  filter_by toLowerCase field q1 a = filter_by toLowerCase field q2 a.
Proof.
  unfold same_filter, filter_by. destruct q1 as [s1|], q2 as [s2|]; try tauto.
  intros [E T]. rewrite T. destruct (truthy (Some s2)); [|reflexivity].
  apply filterM_ext. intros v. unfold lower_includes. rewrite E. reflexivity.
Qed.

(** X5. The search is insensitive to the case of its filters: two requests
    whose country filters, and whose name filters, have the same lower-case
    folding (and the same limit) yield the same outcome, the same counts and
    the same records. *)
Theorem volcanoSearch_ignores_filter_case net now i1 i2 :
  same_filter toLowerCase (vs_country i1) (vs_country i2) ->
  same_filter toLowerCase (vs_name i1) (vs_name i2) ->
  vs_limit i1 = vs_limit i2 ->
  search_page (volcanoSearch toLowerCase net now i1) =
  search_page (volcanoSearch toLowerCase net now i2).
Proof.
  intros Hc Hn Hl. unfold volcanoSearch.
  destruct (fetchJSON (volcano_source net volcanoUrl)) as [data|e]; cbn [bind];
    [|reflexivity].
  rewrite (filter_by_same_filter country _ _ data Hc).
  destruct (filter_by toLowerCase country (vs_country i2) data) as [f1|e];
    cbn [bind]; [|reflexivity].
  rewrite (filter_by_same_filter vName _ _ f1 Hn).
  destruct (filter_by toLowerCase vName (vs_name i2) f1) as [f2|e];
    cbn [bind]; [|reflexivity].
  cbn [search_page vs_totalMatches vs_returned vs_volcanoes]. rewrite Hl. reflexivity.
Qed.
End VolcanoSearchPages.

(** * More binary64 facts: order and NaN *)

Module Binary64Order.
Local Open Scope Z_scope.

Ltac split_compare :=
  repeat match goal with
    | H : context [Pos.compare_cont Eq ?p ?q] |- _ =>
        change (Pos.compare_cont Eq p q) with (Pos.compare p q) in H
    | |- context [Pos.compare_cont Eq ?p ?q] =>
        change (Pos.compare_cont Eq p q) with (Pos.compare p q)
    end;
  repeat match goal with
    | H : context [Z.compare ?a ?b] |- _ => destruct (Z.compare_spec a b)
    | |- context [Z.compare ?a ?b] => destruct (Z.compare_spec a b)
    | H : context [Pos.compare ?a ?b] |- _ => destruct (Pos.compare_spec a b)
    | |- context [Pos.compare ?a ?b] => destruct (Pos.compare_spec a b)
    end.

Lemma SFleb_trans x y z :
  SFleb x y = true -> SFleb y z = true -> SFleb x z = true.
Proof.
  unfold SFleb.
  destruct x as [sx|sx| |sx mx ex], y as [sy|sy| |sy my ey], z as [sz|sz| |sz mz ez];
    try destruct sx; try destruct sy; try destruct sz; cbn;
    try discriminate; try reflexivity; intros H1 H2.
  all: split_compare; subst; cbn in *; try discriminate; try reflexivity; try lia.
Qed.

Local Open Scope float_scope.

Lemma leb_trans x y z : (x <=? y) = true -> (y <=? z) = true -> (x <=? z) = true.
Proof. rewrite !leb_spec. apply SFleb_trans. Qed.

Lemma leb_nan_l r : (nan <=? r) = false.
Proof. rewrite leb_spec. reflexivity. Qed.

Lemma sub_nan_l x : nan - x = nan.
Proof. apply Prim2SF_inj. rewrite sub_spec. reflexivity. Qed.

Lemma sub_nan_r x : x - nan = nan.
Proof.
  apply Prim2SF_inj. rewrite sub_spec. change (Prim2SF nan) with S754_nan.
  destruct (Prim2SF x); reflexivity.
Qed.

Lemma mul_nan_l x : nan * x = nan.
Proof. apply Prim2SF_inj. rewrite mul_spec. reflexivity. Qed.

Lemma mul_nan_r x : x * nan = nan.
Proof.
  apply Prim2SF_inj. rewrite mul_spec. change (Prim2SF nan) with S754_nan.
  destruct (Prim2SF x); reflexivity.
Qed.

Lemma div_nan_l x : nan / x = nan.
Proof. apply Prim2SF_inj. rewrite div_spec. reflexivity. Qed.

Lemma add_nan_l x : nan + x = nan.
Proof. apply Prim2SF_inj. rewrite add_spec. reflexivity. Qed.

Lemma add_nan_r x : x + nan = nan.
Proof.
  apply Prim2SF_inj. rewrite add_spec. change (Prim2SF nan) with S754_nan.
  destruct (Prim2SF x); reflexivity.
Qed.

Lemma is_nan_eq x : is_nan x = true -> x = nan.
Proof.
  unfold is_nan. rewrite eqb_spec. intros H. apply Prim2SF_inj.
  change (Prim2SF nan) with S754_nan.
  destruct (Prim2SF x) as [s|s| |s m e] eqn:E; [..|reflexivity| ];
    unfold SFeqb in H; rewrite SFcompare_self in H by discriminate; discriminate.
Qed.
End Binary64Order.

Import Binary64Order.

Section MissingCoordinates.
Context {M : JSMath}.
Local Open Scope float_scope.

Lemma toRad_nan : toRad nan = nan.
Proof. reflexivity. Qed.

Lemma haversine_a_nan_latitude lat1 lon1 lon2 :
  sin_nan -> haversine_a lat1 lon1 nan lon2 = nan.
Proof.
  intros H. unfold haversine_a. cbv zeta.
  rewrite sub_nan_l. change (toRad nan / 2) with nan. rewrite H.
  rewrite mul_nan_l. apply add_nan_l.
Qed.

Lemma haversine_a_nan_longitude lat1 lon1 lat2 :
  sin_nan -> haversine_a lat1 lon1 lat2 nan = nan.
Proof.
  intros H. unfold haversine_a. cbv zeta.
  rewrite (sub_nan_l lon1). change (toRad nan / 2) with nan. rewrite H.
  rewrite !mul_nan_r. apply add_nan_r.
Qed.

Lemma haversine_of_nan lat1 lon1 lat2 lon2 :
  atan2_nan -> haversine_a lat1 lon1 lat2 lon2 = nan ->
  haversine lat1 lon1 lat2 lon2 = nan.
Proof.
  intros H E. unfold haversine. cbv zeta. rewrite E.
  change (Math_sqrt (1 - nan)) with nan. rewrite H. reflexivity.
Qed.

Lemma nearbyVolcanoes_in volcanoData latitude longitude radiusKm v :
  In v (nearbyVolcanoes volcanoData latitude longitude radiusKm) ->
  within radiusKm v = true /\
  exists r, In r volcanoData /\ v = with_distance latitude longitude r.
Proof.
  unfold nearbyVolcanoes, slice. rewrite Nat.sub_0_r. cbn [skipn]. intros H.
  assert (H' : In v (sort by_distance
                       (filter (within radiusKm)
                          (map (with_distance latitude longitude) volcanoData)))).
  { rewrite <- (firstn_skipn 20 (sort _ _)). apply in_or_app. left. exact H. }
  apply (Permutation_in _ (sort_perm distanceKm _)) in H'.
  apply filter_In in H' as [Hm Hw]. split; [exact Hw|].
  apply in_map_iff in Hm as (r & <- & Hr). eauto.
Qed.

(** X6. With a math library that propagates NaN through [Math.sin] and
    [Math.atan2], a volcano record whose latitude or longitude is NaN (what
    arithmetic on an absent coordinate gives) is never listed by the report,
    whatever the centre and the radius. *)
Theorem nearbyVolcanoes_skips_missing_coordinates
  (volcanoData : list volcano) (lat lon radiusKm : float) :
  sin_nan -> atan2_nan ->
  Forall (fun v => is_nan (latitude (record v)) = false /\
                   is_nan (longitude (record v)) = false)
    (nearbyVolcanoes volcanoData lat lon radiusKm).
Proof.
  intros Hs Ha. apply Forall_forall. intros v Hv.
  destruct (nearbyVolcanoes_in _ _ _ _ _ Hv) as (Hw & r & _ & ->).
  unfold within in Hw. cbn [distanceKm with_distance record] in *.
  split.
  - destruct (is_nan (latitude r)) eqn:E; [|reflexivity].
    apply is_nan_eq in E. rewrite E in Hw.
    rewrite (haversine_of_nan _ _ _ _ Ha (haversine_a_nan_latitude _ _ _ Hs)) in Hw.
    rewrite leb_nan_l in Hw. discriminate.
  - destruct (is_nan (longitude r)) eqn:E; [|reflexivity].
    apply is_nan_eq in E. rewrite E in Hw.
    rewrite (haversine_of_nan _ _ _ _ Ha (haversine_a_nan_longitude _ _ _ Hs)) in Hw.
    rewrite leb_nan_l in Hw. discriminate.
Qed.

(** X7. The report lists exactly as many volcanoes as lie within the radius,
    up to 20: the length of the list is the smaller of 20 and the number of
    upstream records whose distance is at most the radius. *)
Theorem nearbyVolcanoes_count volcanoData lat lon radiusKm :
  List.length (nearbyVolcanoes volcanoData lat lon radiusKm) =
  Nat.min 20 (count (within radiusKm) (map (with_distance lat lon) volcanoData)).
Proof.
  unfold nearbyVolcanoes, slice. rewrite Nat.sub_0_r. cbn [skipn].
  rewrite length_firstn, (Permutation_length (sort_perm distanceKm _)).
  rewrite length_filter_count. reflexivity.
Qed.
End MissingCoordinates.

(** * The order of the ranked list *)

Section SortedByKey.
Context {A : Type}.
Variable key : A -> float.
Variable r : float.
Local Open Scope float_scope.

Lemma key_le_trans x y z : key_le key x y -> key_le key y z -> key_le key x z.
Proof. apply leb_trans. Qed.

Lemma sort_numbers l : Forall (is_number key) l -> Forall (is_number key) (sort (key_diff key) l).
Proof.
  intros H. eapply Permutation_Forall; [apply Permutation_sym, sort_perm|exact H].
Qed.

Lemma sort_strongly_sorted l :
  Forall (is_number key) l -> StronglySorted (key_le key) (sort (key_diff key) l).
Proof.
  intros H. apply Sorted_StronglySorted.
  - intros x y z. apply key_le_trans.
  - apply sort_sorted, H.
Qed.

Lemma StronglySorted_app_le l1 l2 :
  StronglySorted (key_le key) (l1 ++ l2) ->
  forall v w, In v l1 -> In w l2 -> key_le key v w.
Proof.
  induction l1 as [|x l1 IH]; cbn [app]; intros H v w Hv Hw; [contradiction|].
  apply StronglySorted_inv in H as [Hs Hx].
  destruct Hv as [<- | Hv].
  - rewrite Forall_forall in Hx. apply Hx, in_or_app. right. exact Hw.
  - apply (IH Hs v w Hv Hw).
Qed.

Lemma beyond_stays_beyond y l :
  (at_most key r) y = false -> Forall (key_le key y) l -> filter (at_most key r) l = [].
Proof.
  intros Hy H. induction H as [|z l Hz _ IH]; cbn [filter]; [reflexivity|].
  destruct ((at_most key r) z) eqn:Ez; [|exact IH].
  unfold at_most in *. rewrite (leb_trans _ _ _ Hz Ez) in Hy. discriminate.
Qed.

Lemma filter_sort_insert x l :
  StronglySorted (key_le key) l ->
  filter (at_most key r) (sort_insert (key_diff key) x l) =
  if (at_most key r) x then sort_insert (key_diff key) x (filter (at_most key r) l)
  else filter (at_most key r) l.
Proof.
  induction 1 as [|y l Hs IH Hy]; cbn [sort_insert filter].
  - destruct ((at_most key r) x); reflexivity.
  - destruct (0 <? key_diff key x y) eqn:E; cbn [filter].
    + rewrite IH. destruct ((at_most key r) x), ((at_most key r) y); cbn [sort_insert];
        rewrite ?E; reflexivity.
    + destruct ((at_most key r) x); [|reflexivity].
      destruct ((at_most key r) y) eqn:Ey; cbn [sort_insert]; rewrite ?E; [reflexivity|].
      rewrite (beyond_stays_beyond y l Ey Hy). reflexivity.
Qed.

Lemma filter_sort l :
  Forall (is_number key) l ->
  filter (at_most key r) (sort (key_diff key) l) = sort (key_diff key) (filter (at_most key r) l).
Proof.
  induction l as [|x l IH]; intros H; cbn [sort fold_right filter]; [reflexivity|].
  inversion H as [|? ? Hx Hl]; subst.
  fold (sort (key_diff key) l).
  rewrite filter_sort_insert by (apply sort_strongly_sorted, Hl).
  rewrite (IH Hl). destruct ((at_most key r) x); reflexivity.
Qed.

Lemma filter_is_prefix l :
  StronglySorted (key_le key) l -> exists k, filter (at_most key r) l = firstn k l.
Proof.
  induction 1 as [|y l Hs [k IH] Hy]; cbn [filter].
  - exists 0%nat. reflexivity.
  - destruct ((at_most key r) y) eqn:Ey.
    + exists (S k). cbn [firstn]. rewrite IH. reflexivity.
    + exists 0%nat. cbn [firstn]. apply (beyond_stays_beyond y l Ey Hy).
Qed.
End SortedByKey.

Section RankingOrder.
Context {M : JSMath}.
Local Open Scope float_scope.

Lemma inside_numbers radiusKm l : Forall (is_number distanceKm) (filter (within radiusKm) l).
Proof.
  apply Forall_forall. intros v Hv. apply filter_In in Hv as [_ Hv].
  apply (within_is_number _ _ Hv).
Qed.

(** X8. The truncation keeps the nearest records: the records within the
    radius that the list leaves out are each at least as far as every listed
    record. *)
Theorem nearbyVolcanoes_keeps_nearest (volcanoData : list volcano)
  (lat lon radiusKm : float) :
  exists rest,
    Permutation (nearbyVolcanoes volcanoData lat lon radiusKm ++ rest)
      (filter (within radiusKm) (map (with_distance lat lon) volcanoData)) /\
    forall v w, In v (nearbyVolcanoes volcanoData lat lon radiusKm) -> In w rest ->
                closer_or_equal v w.
Proof.
  set (inside := filter (within radiusKm) (map (with_distance lat lon) volcanoData)).
  exists (skipn 20 (sort by_distance inside)).
  unfold nearbyVolcanoes, slice. rewrite Nat.sub_0_r. cbn [skipn]. fold inside.
  split.
  - rewrite firstn_skipn. apply (sort_perm distanceKm).
  - apply (StronglySorted_app_le distanceKm). rewrite firstn_skipn.
    apply (sort_strongly_sorted distanceKm), inside_numbers.
Qed.

(** X9. Enlarging the radius only appends: for radii [r1 <= r2] the list for
    [r1] is an initial part of the list for [r2]. *)
Theorem nearbyVolcanoes_grows_with_radius (volcanoData : list volcano)
  (lat lon r1 r2 : float) :
  (r1 <=? r2) = true ->
  exists k, nearbyVolcanoes volcanoData lat lon r1 =
            firstn k (nearbyVolcanoes volcanoData lat lon r2).
Proof.
  intros Hr. set (all := map (with_distance lat lon) volcanoData).
  set (inside2 := filter (within r2) all).
  assert (E1 : filter (within r1) all = filter (at_most distanceKm r1) inside2).
  { unfold inside2. rewrite filter_twice. apply filter_ext. intros v.
    unfold within, at_most. destruct (distanceKm v <=? r1) eqn:E.
    - rewrite (leb_trans _ _ _ E Hr). reflexivity.
    - rewrite andb_false_r. reflexivity. }
  destruct (filter_is_prefix distanceKm r1 (sort by_distance inside2)) as [k Hk].
  { apply (sort_strongly_sorted distanceKm), inside_numbers. }
  exists (Nat.min 20 k).
  unfold nearbyVolcanoes, slice. rewrite !Nat.sub_0_r. cbn [skipn]. fold all inside2.
  rewrite E1. change by_distance with (key_diff distanceKm) in *.
  rewrite <- (filter_sort distanceKm r1 inside2) by apply inside_numbers.
  rewrite Hk.
  rewrite !firstn_firstn. f_equal. lia.
Qed.
End RankingOrder.

(** * The report: preview and risk block *)

Lemma count_le_length {A} (p : A -> bool) l : count p l <= List.length l.
Proof.
  induction l as [|x l IH]; cbn [count List.length]; [lia|]. destruct (p x); lia.
Qed.

Lemma count_firstn_le {A} (p : A -> bool) n l : count p (firstn n l) <= count p l.
Proof.
  revert l. induction n as [|n IH]; intros [|x l]; cbn [firstn count]; try lia.
  specialize (IH l). lia.
Qed.

Lemma count_map {A B} (g : A -> B) (p : B -> bool) l :
  count p (map g l) = count (fun x => p (g x)) l.
Proof.
  induction l as [|x l IH]; cbn [map count]; [reflexivity|]. rewrite IH. reflexivity.
Qed.

Lemma count_zero {A} (p : A -> bool) l :
  count p l = 0 <-> Forall (fun x => p x = false) l.
Proof.
  induction l as [|x l IH]; cbn [count].
  - split; [constructor|reflexivity].
  - destruct (p x) eqn:E; split; intros H.
    + discriminate.
    + inversion H; congruence.
    + constructor; [exact E|apply IH; lia].
    + inversion H; subst. apply IH. assumption.
Qed.

Section ReportBlocks.
Context {M : JSMath}.

Lemma report_inv net left_first now i out :
  report net left_first now i = Ok out ->
  let earthquakeData := json (seismic_source net (earthquakeUrl now i)) in
  let volcanoData := json (volcano_source net volcanoUrl) in
  out_recentEarthquakes out = map recent (firstn 15 (features earthquakeData)) /\
  ra_significantQuakes (out_riskAssessment out) = count significant (features earthquakeData) /\
  ra_level (out_riskAssessment out) = riskLevel (count significant (features earthquakeData)) /\
  ra_nearbyVolcanoes (out_riskAssessment out) =
    List.length (nearbyVolcanoes volcanoData (report_latitude i) (report_longitude i)
                   (report_radiusKm i)).
Proof.
  unfold report.
  destruct (fetchJSON_cases (seismic_source net (earthquakeUrl now i)))
    as [[Oq Eq]|[Oq Eq]];
    destruct (fetchJSON_cases (volcano_source net volcanoUrl))
      as [[Ov Ev]|[Ov Ev]];
    rewrite Eq, Ev; cbn [Promise_all bind]; try discriminate.
  intros H. injection H as <-.
  cbn [out_recentEarthquakes out_riskAssessment ra_significantQuakes ra_level
       ra_nearbyVolcanoes].
  rewrite length_filter_count. repeat split.
Qed.

(** X10. The earthquake preview of a report holds the first 15 returned
    events at most, while the significant-quake count covers every returned
    event: the count is never below the number of significant events shown,
    and equals it when at most 15 events were returned. *)
Theorem report_preview_and_count net left_first now i out :
  report net left_first now i = Ok out ->
  let n := List.length (features (json (seismic_source net (earthquakeUrl now i)))) in
  let shown := count (fun e => (4 <=? re_magnitude e)%float) (out_recentEarthquakes out) in
  List.length (out_recentEarthquakes out) = Nat.min 15 n /\
  shown <= ra_significantQuakes (out_riskAssessment out) /\
  (n <= 15 -> shown = ra_significantQuakes (out_riskAssessment out)).
Proof.
  intros H n shown. destruct (report_inv _ _ _ _ _ H) as (Er & Es & _ & _).
  unfold shown. rewrite Er, Es, length_map, length_firstn, count_map.
  fold n. split; [reflexivity|]. split.
  - apply (count_firstn_le significant).
  - intros Hn. rewrite firstn_all2 by exact Hn. reflexivity.
Qed.

(** X11. The risk level of a report is the classification of its own
    significant-quake count, which is at most the number of events returned.
    The level is MINIMAL exactly when no returned event has magnitude at
    least 4, and HIGH requires more than 10 returned events. *)
Theorem report_level_and_events net left_first now i out :
  report net left_first now i = Ok out ->
  let returned := features (json (seismic_source net (earthquakeUrl now i))) in
  ra_level (out_riskAssessment out) =
    riskLevel (ra_significantQuakes (out_riskAssessment out)) /\
  ra_significantQuakes (out_riskAssessment out) <= List.length returned /\
  (ra_level (out_riskAssessment out) = MINIMAL <->
   Forall (fun f => (4 <=? mag f)%float = false) returned) /\
  (ra_level (out_riskAssessment out) = HIGH -> 10 < List.length returned).
Proof.
  intros H returned. destruct (report_inv _ _ _ _ _ H) as (_ & Es & El & _).
  fold returned in Es, El. rewrite El, Es.
  pose proof (count_le_length significant returned) as B.
  destruct (riskLevel_cases (count significant returned)) as [[Hc E]|[[Hc E]|[[Hc E]|[Hc E]]]];
    rewrite E; repeat split; try discriminate; try lia; try reflexivity.
  all: try (intros F; apply (count_zero significant) in F; lia).
  intros _. apply (count_zero significant). exact Hc.
Qed.
End ReportBlocks.

(** * The top list *)

Section TopList.

Lemma toISOString_of_cases t :
  (valid_time t = true /\ toISOString_of t = Some (Iso (new_Date t))) \/
  (valid_time t = false /\ toISOString_of t = None).
Proof. unfold toISOString_of. destruct (valid_time t); auto. Qed.

Lemma top_entry_cases f i :
  (valid_time (time (event_feature f)) = true /\
   exists e, top_entry f i = Some e /\ te_rank e = i + 1 /\
             te_magnitude e = mag (event_feature f)) \/
  (valid_time (time (event_feature f)) = false /\ top_entry f i = None).
Proof.
  unfold top_entry.
  destruct (toISOString_of_cases (time (event_feature f))) as [[V E]|[V E]]; rewrite E.
  - left. split; [exact V|]. eexists. repeat split.
  - right. split; [exact V|reflexivity].
Qed.

Lemma map_indexed_entries a : forall i l,
  map_indexed top_entry i a = Some l ->
  map te_rank l = seq (i + 1) (List.length a) /\
  map te_magnitude l = map (fun f => mag (event_feature f)) a /\
  Forall (fun f => valid_time (time (event_feature f)) = true) a.
Proof.
  induction a as [|f a IH]; intros i l; cbn [map_indexed].
  - intros H. injection H as <-. repeat split. constructor.
  - destruct (top_entry_cases f i) as [(V & e & E & Er & Em)|[V E]]; rewrite E;
      [|discriminate].
    destruct (map_indexed top_entry (S i) a) as [l'|] eqn:El; [|discriminate].
    intros H. injection H as <-.
    destruct (IH _ _ El) as (Hr & Hm & Hv).
    cbn [map List.length seq]. rewrite Er, Em, Hr, Hm.
    repeat split. constructor; assumption.
Qed.

Lemma map_indexed_throws a : forall i,
  map_indexed top_entry i a = None ->
  Exists (fun f => valid_time (time (event_feature f)) = false) a.
Proof.
  induction a as [|f a IH]; intros i; cbn [map_indexed]; [discriminate|].
  destruct (top_entry_cases f i) as [(V & e & E & _)|[V E]]; rewrite E.
  - destruct (map_indexed top_entry (S i) a) eqn:El; [discriminate|].
    intros _. right. apply (IH _ El).
  - intros _. left. exact V.
Qed.

(** X12. In a returned top list the ranks run 1, 2, ..., n without gaps and
    the entry of rank k carries the magnitude of the k-th event of the
    upstream answer: the handler ranks by upstream position and neither
    reorders nor drops events. *)
Theorem top_ranks_follow_upstream source now i out :
  top source now i = Returned out ->
  map te_rank (to_topEarthquakes out) =
    seq 1 (List.length (events (json (source (top_url now i))))) /\
  map te_magnitude (to_topEarthquakes out) =
    map (fun f => mag (event_feature f)) (events (json (source (top_url now i)))).
Proof.
  unfold top.
  destruct (fetchJSON_cases (source (top_url now i))) as [[Hok E]|[Hok E]];
    rewrite E; [|discriminate].
  destruct (map_indexed top_entry 0 _) as [l|] eqn:El; [|discriminate].
  intros H. injection H as <-. cbn [to_topEarthquakes].
  destruct (map_indexed_entries _ _ _ El) as (Hr & Hm & _). split; assumption.
Qed.

(** X13. For a fetch that resolves with a collection whose [metadata] is
    present and whose events each have [properties] and
    [geometry.coordinates] (the collections [EventCollection] describes),
    the top list ends in one of three ways.  It is returned exactly when the
    response is ok and every event has a valid time; a response that is not
    ok gives the API error with its status; and with an ok response, one
    event whose [properties.time] is not a valid time value (NaN, when the
    [time] property is missing) makes the whole list fail with a
    RangeError. *)
Theorem top_outcomes source now i :
  match top source now i with
  | Returned _ =>
      ok (source (top_url now i)) = true /\
      Forall (fun f => valid_time (time (event_feature f)) = true)
        (events (json (source (top_url now i))))
  | Raised (Upstream e) =>
      ok (source (top_url now i)) = false /\
      e = ApiError (status (source (top_url now i)))
  | Raised RangeError =>
      ok (source (top_url now i)) = true /\
      Exists (fun f => valid_time (time (event_feature f)) = false)
        (events (json (source (top_url now i))))
  end.
Proof.
  unfold top.
  destruct (fetchJSON_cases (source (top_url now i))) as [[Hok E]|[Hok E]]; rewrite E.
  - destruct (map_indexed top_entry 0 _) as [l|] eqn:El.
    + split; [exact Hok|]. apply (map_indexed_entries _ _ _ El).
    + split; [exact Hok|]. apply (map_indexed_throws _ _ El).
  - split; [exact Hok|reflexivity].
Qed.
End TopList.

(** * The text of the lookup query *)

Section LookupText.
Local Open Scope string_scope.
Variable numberToString : float -> string.
Variable toISOString : Date -> string.

Lemma prefix_app_r k s t : String.prefix k s = true -> String.prefix k (s ++ t) = true.
Proof.
  revert s. induction k as [|a k IH]; intros s H; [destruct (s ++ t); reflexivity|].
  destruct s as [|b s]; [discriminate|]. cbn [String.prefix append] in *.
  destruct (ascii_dec a b); [apply IH, H|discriminate].
Qed.

Lemma includes_app_r s t k : includes s k = true -> includes (s ++ t) k = true.
Proof.
  induction s as [|c s IH].
  - cbn [includes]. destruct (String.prefix k "") eqn:P; [|discriminate].
    intros _. destruct k; [|discriminate]. destruct t; reflexivity.
  - cbn [includes append].
    destruct (String.prefix k (String c s)) eqn:P.
    + intros _. change (String c (s ++ t)) with (String c s ++ t).
      rewrite (prefix_app_r _ _ t P). reflexivity.
    + intros H. rewrite (IH H). destruct (String.prefix k (String c (s ++ t))); reflexivity.
Qed.

Lemma includes_app_l s t k : includes s k = true -> includes (t ++ s) k = true.
Proof.
  intros H. induction t as [|c t IH]; cbn [append]; [exact H|].
  cbn [includes]. rewrite IH. destruct (String.prefix k (String c (t ++ s))); reflexivity.
Qed.

Lemma lookup_url_text (eventId : string) :
  render numberToString toISOString (lookup_url eventId) =
    query_base ++ "eventid=" ++ eventId ++ "&format=geojson".
Proof. reflexivity. Qed.

(** X14. The lookup query spells the event id out verbatim, without
    encoding: every text that occurs in the id (a further parameter such as
    [&orderby=time], for instance) occurs in the text of the outgoing
    query. *)
Theorem lookup_query_spells_id_verbatim (eventId key : string) :
  includes eventId key = true ->
  includes (render numberToString toISOString (lookup_url eventId)) key = true.
Proof.
  intros H. rewrite lookup_url_text.
  apply includes_app_l, includes_app_l, includes_app_r, H.
Qed.
End LookupText.

(** * The magnitude bounds of the search query *)

Section SearchBounds.
Local Open Scope string_scope.

(** X15. The search query always carries the minimum magnitude and the limit
    of the request, and carries an upper magnitude bound exactly when the
    request gives one, with the value given; whether a centre is given makes
    no difference. *)
Theorem search_magnitude_bounds (now : Date) (i : search_input) :
  value_after "&minmagnitude=" (search_url now i) = Some (Num (search_minMagnitude i)) /\
  value_after "&limit=" (search_url now i) = Some (Num (search_limit i)) /\
  match search_maxMagnitude i with
  | Some m =>
      mentions "maxmagnitude=" (search_url now i) = true /\
      value_after "&maxmagnitude=" (search_url now i) = Some (Num m)
  | None =>
      mentions "maxmagnitude=" (search_url now i) = false /\
      value_after "&maxmagnitude=" (search_url now i) = None
  end.
Proof.
  unfold search_url. cbv zeta.
  destruct (search_latitude i), (search_longitude i), (search_maxMagnitude i);
    repeat split.
Qed.
End SearchBounds.

(** * Sample runs of the further properties *)

Section FurtherSamples.
Local Open Scope string_scope.
Local Open Scope float_scope.

Lemma volcanoSearch_page_size_witness :
  exists out,
    volcanoSearch ascii_toLowerCase
      (sample_network true true [] [merapi; fuji; unnamed_land; hakone])
      sample_now {| vs_country := Some "japan"; vs_name := None; vs_limit := 1 |}
    = Ok out /\
    vs_totalMatches out = 2%nat /\
    map fv_name (vs_volcanoes out) = [JString "Fuji"] /\
    (vs_returned out = Nat.min 1 (vs_totalMatches out) /\
     vs_returned out = List.length (vs_volcanoes out) /\
     vs_totalMatches out =
       count (selected ascii_toLowerCase
                {| vs_country := Some "japan"; vs_name := None; vs_limit := 1 |})
         [merapi; fuji; unnamed_land; hakone]).
Proof.
  eexists. split; [reflexivity|]. split; [reflexivity|]. split; [reflexivity|].
  apply (volcanoSearch_page_size ascii_toLowerCase
           (sample_network true true [] [merapi; fuji; unnamed_land; hakone]) sample_now
           {| vs_country := Some "japan"; vs_name := None; vs_limit := 1 |}).
  reflexivity.
Defined.

Lemma volcanoSearch_selects_witness :
  exists out,
    volcanoSearch ascii_toLowerCase
      (sample_network true true [] [hakone; merapi; unnamed_land; fuji])
      sample_now {| vs_country := Some "JAPAN"; vs_name := Some "U"; vs_limit := 5 |}
    = Ok out /\
    vs_volcanoes out = [found fuji] /\
    vs_volcanoes out =
      map found
        (firstn 5
           (filter (selected ascii_toLowerCase
                      {| vs_country := Some "JAPAN"; vs_name := Some "U"; vs_limit := 5 |})
              [hakone; merapi; unnamed_land; fuji])).
Proof.
  eexists. split; [reflexivity|]. split; [reflexivity|].
  apply (volcanoSearch_selects ascii_toLowerCase
           (sample_network true true [] [hakone; merapi; unnamed_land; fuji]) sample_now
           {| vs_country := Some "JAPAN"; vs_name := Some "U"; vs_limit := 5 |}).
  reflexivity.
Defined.

Lemma volcanoSearch_rejects_untyped_country_witness :
  volcanoSearch ascii_toLowerCase
    (sample_network true true [] [fuji; untyped_land; merapi])
    sample_now {| vs_country := Some "japan"; vs_name := None; vs_limit := 20 |}
  = Throw TypeError.
Proof.
  apply (volcanoSearch_rejects_untyped_country ascii_toLowerCase
           (sample_network true true [] [fuji; untyped_land; merapi]) sample_now
           {| vs_country := Some "japan"; vs_name := None; vs_limit := 20 |}
           untyped_land).
  - reflexivity.
  - reflexivity.
  - right. left. reflexivity.
  - right. exists 39. reflexivity.
Defined.

Lemma volcanoSearch_failure_causes_witness :
  (ok (volcano_source (sample_network true false [] [fuji; merapi]) volcanoUrl) = false /\
   ApiError 502 =
     ApiError (status (volcano_source (sample_network true false [] [fuji; merapi])
                         volcanoUrl))) \/
  (ok (volcano_source (sample_network true false [] [fuji; merapi]) volcanoUrl) = true /\
   ApiError 502 = TypeError /\
   exists v, In v (json (volcano_source (sample_network true false [] [fuji; merapi])
                           volcanoUrl)) /\
     ((truthy (Some "japan") = true /\ lacks_toLowerCase (country v)) \/
      (truthy None = true /\ lacks_toLowerCase (vName v)))).
Proof.
  apply (volcanoSearch_failure_causes ascii_toLowerCase
           (sample_network true false [] [fuji; merapi]) sample_now
           {| vs_country := Some "japan"; vs_name := None; vs_limit := 20 |}
           (ApiError 502)).
  reflexivity.
Defined.

Lemma volcanoSearch_ignores_filter_case_witness :
  search_page
    (volcanoSearch ascii_toLowerCase
       (sample_network true true [] [merapi; fuji; unnamed_land; hakone]) sample_now
       {| vs_country := Some "JAPAN"; vs_name := None; vs_limit := 20 |}) =
  search_page
    (volcanoSearch ascii_toLowerCase
       (sample_network true true [] [merapi; fuji; unnamed_land; hakone]) sample_now
       {| vs_country := Some "japan"; vs_name := None; vs_limit := 20 |}).
Proof.
  apply (volcanoSearch_ignores_filter_case ascii_toLowerCase
           (sample_network true true [] [merapi; fuji; unnamed_land; hakone]) sample_now
           {| vs_country := Some "JAPAN"; vs_name := None; vs_limit := 20 |}
           {| vs_country := Some "japan"; vs_name := None; vs_limit := 20 |}).
  - split; reflexivity.
  - exact I.
  - reflexivity.
Defined.

Lemma nearbyVolcanoes_skips_missing_coordinates_witness :
  map record (@nearbyVolcanoes sampled_math [uncharted; fuji; merapi] 35.5 139.75 200)
    = [fuji] /\
  Forall (fun v => is_nan (latitude (record v)) = false /\
                   is_nan (longitude (record v)) = false)
    (@nearbyVolcanoes sampled_math [uncharted; fuji; merapi] 35.5 139.75 200).
Proof.
  split; [reflexivity|].
  apply (@nearbyVolcanoes_skips_missing_coordinates sampled_math
           [uncharted; fuji; merapi] 35.5 139.75 200).
  - reflexivity.
  - intros y. reflexivity.
Defined.

Lemma nearbyVolcanoes_grows_with_radius_witness :
  map record (@nearbyVolcanoes first_order_math [merapi; fuji; hakone] 35.5 139.75 100)
    = [hakone] /\
  map record (@nearbyVolcanoes first_order_math [merapi; fuji; hakone] 35.5 139.75 200)
    = [hakone; fuji] /\
  exists k,
    @nearbyVolcanoes first_order_math [merapi; fuji; hakone] 35.5 139.75 100 =
    firstn k (@nearbyVolcanoes first_order_math [merapi; fuji; hakone] 35.5 139.75 200).
Proof.
  split; [reflexivity|]. split; [reflexivity|].
  apply (@nearbyVolcanoes_grows_with_radius first_order_math
           [merapi; fuji; hakone] 35.5 139.75 100 200).
  reflexivity.
Defined.

Lemma report_preview_and_count_witness :
  exists out,
    @report first_order_math (sample_network true true sample_quakes [fuji; merapi])
      true sample_now tokyo = Ok out /\
    (List.length (out_recentEarthquakes out) = Nat.min 15 (List.length sample_quakes) /\
     count (fun e => 4 <=? re_magnitude e) (out_recentEarthquakes out)
       <= ra_significantQuakes (out_riskAssessment out) /\
     (List.length sample_quakes <= 15 ->
      count (fun e => 4 <=? re_magnitude e) (out_recentEarthquakes out)
        = ra_significantQuakes (out_riskAssessment out))).
Proof.
  eexists. split; [reflexivity|].
  apply (@report_preview_and_count first_order_math
           (sample_network true true sample_quakes [fuji; merapi]) true sample_now tokyo).
  reflexivity.
Defined.

Lemma report_level_and_events_witness :
  exists out,
    @report first_order_math (sample_network true true sample_quakes [fuji; merapi])
      true sample_now tokyo = Ok out /\
    ra_significantQuakes (out_riskAssessment out) = 3%nat /\
    (ra_level (out_riskAssessment out) =
       riskLevel (ra_significantQuakes (out_riskAssessment out)) /\
     ra_significantQuakes (out_riskAssessment out) <= List.length sample_quakes /\
     (ra_level (out_riskAssessment out) = MINIMAL <->
      Forall (fun f => (4 <=? mag f) = false) sample_quakes) /\
     (ra_level (out_riskAssessment out) = HIGH -> 10 < List.length sample_quakes)).
Proof.
  eexists. split; [reflexivity|]. split; [reflexivity|].
  apply (@report_level_and_events first_order_math
           (sample_network true true sample_quakes [fuji; merapi]) true sample_now tokyo).
  reflexivity.
Defined.

Lemma top_ranks_follow_upstream_witness :
  exists out,
    top (sample_event_source true
           [sample_event 7.5 1700000000000; sample_event 6 0; sample_event 5.5 1])
      sample_now this_week = Returned out /\
    map te_rank (to_topEarthquakes out) = [1; 2; 3]%nat /\
    map te_magnitude (to_topEarthquakes out) = [7.5; 6; 5.5].
Proof.
  eexists. split; [reflexivity|].
  apply (top_ranks_follow_upstream
           (sample_event_source true
              [sample_event 7.5 1700000000000; sample_event 6 0; sample_event 5.5 1])
           sample_now this_week).
  reflexivity.
Defined.

(** One event without a time fails the whole list. *)
Example top_invalid_time_sample :
  top (sample_event_source true [sample_event 7.5 1700000000000; sample_event 6 nan])
    sample_now this_week = Raised RangeError.
Proof. reflexivity. Qed.

Lemma lookup_query_spells_id_verbatim_witness :
  includes
    (render (fun _ => EmptyString) (fun _ => EmptyString)
       (lookup_url "us6000s5e4&orderby=time"))
    "&orderby=time" = true.
Proof.
  apply (lookup_query_spells_id_verbatim (fun _ => EmptyString) (fun _ => EmptyString)
           "us6000s5e4&orderby=time" "&orderby=time").
  reflexivity.
Defined.
End FurtherSamples.
